(** * Greek Property Finder: scoring, filtering, enrichment and derived metrics

    A shallow embedding of the two source files of the repository:
    - [generate_site.py]: the Python yield computation and the JavaScript
      emitted into the page (normalization over [DATA], [score],
      [rebuildBrowse], the hero and formula display of [rebuild],
      [updateFromSliders], [rebuildAirbnb]);
    - [scraper.py]: nearest-point search and drive-time estimates,
      coordinate fix and proximity enrichment in
      [scrape_rightmove_overseas], [classify_region], [_estimate_airbnb],
      [fetch_area_photos], [build_region_info] and the de-duplication,
      filter and ordering of [run_scraper].

    JavaScript and Python numbers are modelled as rationals [Q]; Python
    [int(...)] on non-negative values is [Qfloor]. *)

From Stdlib Require Import QArith Qminmax Qround Qabs Qpower ZArith List String Bool Lia Lqa.
From Stdlib Require Import Sorting.Permutation Sorting.Sorted.
Import ListNotations.

Open Scope Q_scope.

(** ** Python numeric built-ins used by both files *)
Module Py.

(** [int(x)] on a number: truncation toward zero. *)
Definition py_int (x : Q) : Z :=
  if Qle_bool 0 x then Qfloor x else (- Qfloor (- x))%Z.

(** Rounding to the nearest integer, ties to the even neighbour, as
    Python's [round] does. *)
Definition round_half_even (x : Q) : Z :=
  let f := Qfloor x in
  let r := x - inject_Z f in
  if negb (Qle_bool (1 # 2) r) then f
  else if negb (Qle_bool r (1 # 2)) then (f + 1)%Z
  else if Z.even f then f else (f + 1)%Z.

(** [round(x, 1)]: CPython rounds the exact value of its argument to the
    nearest one-decimal number, ties to even, and returns the float that
    reads as that decimal; the decimal is what is kept here. *)
Definition round1 (x : Q) : Q := inject_Z (round_half_even (x * 10)) / 10.

(** Binary64 arithmetic.  A Python float operation ([/] on two ints or on
    floats, [*] on floats) returns the double nearest to the exact result,
    ties to an even significand: [fl] of the exact result, for results below
    the overflow threshold 2^1024.  [fl_ilog2 x] is [floor(log2 x)] for
    [x > 0], computed from the sizes of numerator and denominator; the
    significand of a double in the binade [2^k, 2^(k+1)) has 53 bits, so its
    unit is [2^(k-52)], and never below the subnormal unit [2^-1074]. *)
Definition fl_ilog2 (x : Q) : Z :=
  let l := (Z.log2 (Qnum x) - Z.log2 (Zpos (Qden x)))%Z in
  if Qle_bool (2 ^ l) x then l else (l - 1)%Z.

Definition fl_exp (x : Q) : Z := Z.max (fl_ilog2 x - 52) (-1074).

Definition fl_pos (x : Q) : Q :=
  let e := fl_exp x in inject_Z (round_half_even (x / 2 ^ e)) * 2 ^ e.

Definition fl (x : Q) : Q :=
  match Qnum x with
  | Z0 => 0
  | Zpos _ => fl_pos x
  | Zneg _ => - fl_pos (- x)
  end.

(** [a < b] on numbers. *)
Definition lt_bool (a b : Q) : bool := negb (Qle_bool b a).

(** Truthiness of an optional number ([None] and [0] are falsy). *)
Definition truthy (x : option Q) : bool :=
  match x with None => false | Some v => negb (Qeq_bool v 0) end.

(** [x or d] for an optional integer. *)
Definition or_int (x : option Z) (d : Z) : Z :=
  match x with None => d | Some v => if Z.eqb v 0 then d else v end.

End Py.

(** ** Page-side scoring engine (JavaScript in generate_site.py) *)
Module Site.

(** One entry of [const DATA = [...]], restricted to the fields the
    scoring and filtering code reads. *)
Record item := mkItem {
  id : Z;
  price : Q;
  area : Q;
  airport : Q;
  beachKm : Q;
  grossYield : Q;
  reno : Z;
  region : string
}.

(** The fields [d.nPrice ... d.nReno] written by [DATA.forEach]. *)
Record norm := mkNorm {
  nPrice : Q;
  nArea : Q;
  nAirport : Q;
  nBeach : Q;
  nYield : Q;
  nReno : Q
}.

(** [Math.min(...xs)] / [Math.max(...xs)].  On an empty array JavaScript
    yields [Infinity] / [-Infinity]; the value is then never read, since
    [DATA.forEach] visits no element, so any value serves here. *)
Definition math_min (xs : list Q) : Q :=
  match xs with [] => 0 | x :: t => fold_left Qmin t x end.

Definition math_max (xs : list Q) : Q :=
  match xs with [] => 0 | x :: t => fold_left Qmax t x end.

(** [max === min ? 0.5 : (max - v) / (max - min)] *)
Definition norm_lower (mn mx v : Q) : Q :=
  if Qeq_bool mx mn then 1 # 2 else (mx - v) / (mx - mn).

(** [max === min ? 0.5 : (v - min) / (max - min)] *)
Definition norm_higher (mn mx v : Q) : Q :=
  if Qeq_bool mx mn then 1 # 2 else (v - mn) / (mx - mn).

(** The body of [DATA.forEach(d => {...})] for one listing [d], with the
    bounds computed from the whole catalog [DATA]. *)
Definition normalize (DATA : list item) (d : item) : norm :=
  let prices := map price DATA in
  let areas := map area DATA in
  let airports := map airport DATA in
  let beaches := map beachKm DATA in
  let yields := map grossYield DATA in
  let minPrice := math_min prices in let maxPrice := math_max prices in
  let minArea := math_min areas in let maxArea := math_max areas in
  let minAirport := math_min airports in let maxAirport := math_max airports in
  let minBeach := math_min beaches in let maxBeach := math_max beaches in
  let minYield := math_min yields in let maxYield := math_max yields in
  {| nPrice := norm_lower minPrice maxPrice (price d);
     nArea := norm_higher minArea maxArea (area d);
     nAirport := norm_lower minAirport maxAirport (airport d);
     nBeach := norm_lower minBeach maxBeach (beachKm d);
     nYield := norm_higher minYield maxYield (grossYield d);
     nReno := if Z.eqb (reno d) 0 then 1 else 0 |}.

(** The catalog after [DATA.forEach]: every listing with its components. *)
Definition normalize_all (DATA : list item) : list (item * norm) :=
  map (fun d => (d, normalize DATA d)) DATA.

(** The six slider weights [wPrice ... wReno]. *)
Record weights := mkWeights {
  wPrice : Q;
  wAirport : Q;
  wBeach : Q;
  wSize : Q;
  wYield : Q;
  wReno : Q
}.

(** The sliders are [<input type="range" min="0" max="100">]. *)
Definition weights_nonneg (w : weights) : Prop :=
  0 <= wPrice w /\ 0 <= wAirport w /\ 0 <= wBeach w /\
  0 <= wSize w /\ 0 <= wYield w /\ 0 <= wReno w.

Definition weight_sum (w : weights) : Q :=
  wPrice w + wAirport w + wBeach w + wSize w + wYield w + wReno w.

(** [const total = wPrice + ... + wReno || 1;] *)
Definition total (w : weights) : Q :=
  let s := weight_sum w in if Qeq_bool s 0 then 1 else s.

(** [function score(d)] *)
Definition score (w : weights) (d : norm) : Q :=
  (nPrice d * wPrice w + nAirport d * wAirport w + nBeach d * wBeach w +
   nArea d * wSize w + nYield d * wYield w + nReno d * wReno w) / total w * 100.

(** ** Browse view: [getFilters] result, filtering and ranking *)

(** The object returned by [getFilters()]: [region] is the selected region
    ([""] when none is chosen, which is falsy in JavaScript); a missing or
    unparsable maximum becomes [Infinity], written [None] here. *)
Record filters := mkFilters {
  fRegion : string;
  priceMax : option Q;
  airportMax : option Q
}.

(** [v > max] with [max] possibly [Infinity]. *)
Definition gt_max (v : Q) (m : option Q) : bool :=
  match m with None => false | Some x => negb (Qle_bool v x) end.

(** The predicate passed to [.filter(d => {...})] in [rebuildBrowse]. *)
Definition keep (f : filters) (d : item) : bool :=
  if negb (String.eqb (fRegion f) "") && negb (String.eqb (region d) (fRegion f))
  then false
  else if gt_max (price d) (priceMax f) then false
  else if gt_max (airport d) (airportMax f) then false
  else true.

(** [{...d, sc: score(d)}] *)
Record entry := mkEntry {
  ent_item : item;
  ent_norm : norm;
  sc : Q
}.

(** One step of the stable sort with comparator [(a, b) => b.sc - a.sc]:
    [x] precedes every element of [l] in the input, so it is placed before
    the first [y] with [b.sc - a.sc <= 0], i.e. [y.sc <= x.sc]. *)
Fixpoint insert_desc (x : entry) (l : list entry) : list entry :=
  match l with
  | [] => [x]
  | y :: ys => if Qle_bool (sc y) (sc x) then x :: y :: ys else y :: insert_desc x ys
  end.

(** [Array.prototype.sort] is required to be stable (ECMAScript 2019 and
    later); with a consistent comparator its result is the unique stable
    ordering, which insertion sort computes. *)
Fixpoint sort_desc (l : list entry) : list entry :=
  match l with
  | [] => []
  | x :: xs => insert_desc x (sort_desc xs)
  end.

(** [DATA.map(d => ({...d, sc: score(d)}))], on the normalized catalog. *)
Definition score_all (w : weights) (DATA : list item) : list entry :=
  map (fun p => mkEntry (fst p) (snd p) (score w (snd p))) (normalize_all DATA).

(** [rebuildBrowse]: map to scored entries, filter, then sort. *)
Definition rebuild_browse (w : weights) (f : filters) (DATA : list item) : list entry :=
  sort_desc (filter (fun e => keep f (ent_item e)) (score_all w DATA)).

(** The filter criteria as the specification words them: each supplied
    criterion holds (region equality, price at most the maximum, airport
    minutes at most the maximum). *)
Definition matches (f : filters) (d : item) : Prop :=
  (fRegion f = ""%string \/ region d = fRegion f) /\
  (forall m, priceMax f = Some m -> price d <= m) /\
  (forall m, airportMax f = Some m -> airport d <= m).

End Site.

(** ** Yield computation in [generate_site] (Python) *)
Module SiteYield.
Import Py.

(** For one property [p] of [properties.json]:
    [price = p.get("price", 0) or 0];
    [annual_income = int(airbnb_rate * 365 * airbnb_occ / 100)];
    [gross_yield = round(annual_income / price * 100, 1) if price else 0].
    [p_price] is the stored price ([None] for absent or null), [rate] and
    [occ] the integer nightly rate and occupancy percentage stored by the
    scraper.  [rate * 365 * occ] is an exact int product; the true division
    by 100, the division by the price and the product by 100 are binary64
    operations, each rounded by [fl].  Returns [(annual_income, gross_yield)]. *)
Definition site_yield (p_price : option Q) (rate occ : Z) : Z * Q :=
  let price := match p_price with Some v => v | None => 0 end in
  let annual_income := py_int (fl (inject_Z (rate * 365 * occ) / 100)) in
  let gross_yield :=
    if negb (Qeq_bool price 0)
    then round1 (fl (fl (inject_Z annual_income / price) * 100))
    else 0 in
  (annual_income, gross_yield).

End SiteYield.

(** ** Geo lookups, enrichment and Airbnb estimate (scraper.py) *)
Module Scraper.
Import Py.

(** Failures the Python code can raise on these paths. *)
Inductive py_error :=
| TypeError        (* unpacking or subscripting [None] *)
| AttributeError.  (* [None.get(...)] *)

Inductive res (A : Type) :=
| Ok (a : A)
| Err (e : py_error).
Arguments Ok {A} a.
Arguments Err {A} e.

Definition bind {A B} (r : res A) (k : A -> res B) : res B :=
  match r with Ok a => k a | Err e => Err e end.

Notation "x <- r ;; k" := (bind r (fun x => k)) (at level 61, r at next level, right associativity).

(** An entry of [AIRPORTS] (code and info dict). *)
Record airport_ref := mkAirport {
  acode : string; aname : string; alat : Q; alng : Q; year_round : bool
}.

(** An entry of the OSM beach list; a missing name is [""]. *)
Record beach_ref := mkBeach { bname : string; blat : Q; blng : Q }.

(** An entry of [CITIES]. *)
Record city_ref := mkCity { cname : string; clat : Q; clng : Q; pop : Z }.

(** The two Google Maps links the code builds. *)
Inductive url :=
| NoUrl                                   (* [""] *)
| SearchUrl (lat lng : Q)                 (* [.../maps/search/beach/@lat,lng,13z] *)
| DirUrl (lat lng blat blng : Q).         (* [.../maps/dir/lat,lng/blat,blng] *)

(** The scan shared by the three lookups:
    [best = None; best_km = 9999; for x in xs: km = ...; if km < best_km: ...]. *)
Fixpoint scan {A} (dist : A -> Q) (xs : list A) (best : option A) (best_km : Q)
  : option A * Q :=
  match xs with
  | [] => (best, best_km)
  | x :: t =>
      let km := dist x in
      if lt_bool km best_km then scan dist t (Some x) km
      else scan dist t best best_km
  end.

(** [int(best_km * 1.4 / 50 * 60)] *)
Definition airport_drive_min (best_km : Q) : Z := py_int (best_km * (14 # 10) / 50 * 60).

(** The beach estimate: 2 under 0.5 km, 5 under 2 km, otherwise
    [max(5, int(best_km * 1.3 / 40 * 60))]; then [min(drive_min, 180)]. *)
Definition beach_drive_min (best_km : Q) : Z :=
  let d :=
    if lt_bool best_km (1 # 2) then 2%Z
    else if lt_bool best_km 2 then 5%Z
    else Z.max 5 (py_int (best_km * (13 # 10) / 40 * 60)) in
  Z.min d 180.

(** [max(5, int(best_km * 1.3 / 50 * 60))] *)
Definition city_drive_min (best_km : Q) : Z := Z.max 5 (py_int (best_km * (13 # 10) / 50 * 60)).

Section Lookups.
(** [_haversine_km]: trigonometric, so it is left as a parameter. *)
Variable haversine_km : Q -> Q -> Q -> Q -> Q.

(** [nearest_airport(lat, lng)] over the airport table [airports]:
    returns [(code, name, drive_min, year_round)]; when no airport was
    closer than 9999 km, [code, info = best] unpacks [None]. *)
Definition nearest_airport (airports : list airport_ref) (lat lng : Q)
  : res (string * string * Z * bool) :=
  let '(best, best_km) :=
    scan (fun a => haversine_km lat lng (alat a) (alng a)) airports None 9999 in
  match best with
  | None => Err TypeError
  | Some a => Ok (acode a, aname a, airport_drive_min best_km, year_round a)
  end.

(** [nearest_beach(lat, lng)]: returns
    [(name, beach_lat, beach_lng, km, drive_min, directions_url)]. *)
Definition nearest_beach (beaches : list beach_ref) (lat lng : Q)
  : res (string * Q * Q * Q * Z * url) :=
  match beaches with
  | [] => Ok ("Unknown"%string, lat, lng, 0, 30%Z, SearchUrl lat lng)
  | _ =>
    let '(best, best_km) :=
      scan (fun b => haversine_km lat lng (blat b) (blng b)) beaches None 9999 in
    match best with
    | None => Err AttributeError
    | Some b =>
        let name := if String.eqb (bname b) "" then "Beach"%string else bname b in
        Ok (name, blat b, blng b, round1 best_km, beach_drive_min best_km,
            DirUrl lat lng (blat b) (blng b))
    end
  end.

(** [nearest_city(lat, lng)]: returns [(city_name, pop, drive_min)]. *)
Definition nearest_city (cities : list city_ref) (lat lng : Q) : res (string * Z * Z) :=
  let '(best, best_km) :=
    scan (fun c => haversine_km lat lng (clat c) (clng c)) cities None 9999 in
  match best with
  | None => Err TypeError
  | Some c => Ok (cname c, pop c, city_drive_min best_km)
  end.

(** The proximity fields of one listing built in
    [scrape_rightmove_overseas]. *)
Record prox := mkProx {
  airport_code : string; airport_name : string; airport_min : Z; airport_yr : bool;
  beach_name : string; beach_lat : Q; beach_lng : Q; beach_km : Q; beach_min_val : Z;
  beach_directions_url : url;
  city_name : string; city_pop : Z; city_min : Z
}.

(** The initial values assigned before [if lat and lng:]. *)
Definition default_prox : prox :=
  {| airport_code := ""; airport_name := ""; airport_min := 60; airport_yr := false;
     beach_name := "Unknown"; beach_lat := 0; beach_lng := 0; beach_km := 0;
     beach_min_val := 30; beach_directions_url := NoUrl;
     city_name := ""; city_pop := 0; city_min := 60 |}.

(** [if lat and lng: lat = abs(float(lat)); lng = abs(float(lng));
     if not (33 < lat < 43 and 18 < lng < 31): lat, lng = None, None] *)
Definition sanitize (lat lng : option Q) : option Q * option Q :=
  match lat, lng with
  | Some a, Some b =>
      if truthy lat && truthy lng then
        let a' := Qabs a in
        let b' := Qabs b in
        if lt_bool 33 a' && lt_bool a' 43 && lt_bool 18 b' && lt_bool b' 31
        then (Some a', Some b') else (None, None)
      else (lat, lng)
  | _, _ => (lat, lng)
  end.

(** The proximity block: defaults, then [if lat and lng:] the three
    lookups.  An exception propagates out of the listing loop, to the
    page-level [except Exception], so the listing is not kept. *)
Definition enrich (airports : list airport_ref) (beaches : list beach_ref)
  (cities : list city_ref) (lat lng : option Q) : res prox :=
  match lat, lng with
  | Some a, Some b =>
      if truthy lat && truthy lng then
        ra <- nearest_airport airports a b ;;
        rb <- nearest_beach beaches a b ;;
        rc <- nearest_city cities a b ;;
        let '(ac, an, am, ay) := ra in
        let '(bn, bla, bln, bkm, bmin, burl) := rb in
        let '(cn, cp, cm) := rc in
        Ok {| airport_code := ac; airport_name := an; airport_min := am; airport_yr := ay;
              beach_name := bn; beach_lat := bla; beach_lng := bln; beach_km := bkm;
              beach_min_val := bmin; beach_directions_url := burl;
              city_name := cn; city_pop := cp; city_min := cm |}
      else Ok default_prox
  | _, _ => Ok default_prox
  end.

(** A listing's proximity fields from the raw [location] coordinates. *)
Definition listing_prox (airports : list airport_ref) (beaches : list beach_ref)
  (cities : list city_ref) (lat lng : option Q) : res prox :=
  let '(lat', lng') := sanitize lat lng in enrich airports beaches cities lat' lng'.

End Lookups.

(** [_estimate_airbnb(price_eur, region, bedrooms, beach_min, city_min)]:
    returns [(int(base_rate), min(70, int(base_occ)))]. *)
Definition estimate_airbnb (price_eur : Z) (region : string) (bedrooms : option Z)
  (beach_min city_min : Z) : Z * Z :=
  let beds := or_int bedrooms 1 in
  let '(base_rate, base_occ) :=
    if String.eqb region "cyclades" || String.eqb region "dodecanese"
    then (55 + beds * 20, 50)%Z
    else if String.eqb region "crete" || String.eqb region "ionian_islands"
    then (45 + beds * 18, 48)%Z
    else if String.eqb region "attica" then (40 + beds * 15, 60)%Z
    else if String.eqb region "pelion_sporades" then (40 + beds * 15, 42)%Z
    else if String.eqb region "central_macedonia" then (35 + beds * 12, 45)%Z
    else (30 + beds * 12, 35)%Z in
  let '(base_rate, base_occ) :=
    if Z.leb beach_min 10 then (base_rate + 10, base_occ + 5)%Z
    else if Z.leb beach_min 20 then (base_rate + 5, base_occ)%Z
    else (base_rate, base_occ) in
  let base_occ := if Z.leb city_min 15 then (base_occ + 8)%Z else base_occ in
  (base_rate, Z.min 70 base_occ).

End Scraper.

(** ** Stable sorting, as [Array.prototype.sort] and Python's [list.sort] *)
Module StableSort.
Section InsertBy.
Context {A : Type} (before : A -> A -> bool).

(** One step of a stable insertion sort: [x] precedes every element of
    [l] in the input, so it is placed before the first [y] with
    [before x y]. *)
Fixpoint insert_by (x : A) (l : list A) : list A :=
  match l with
  | [] => [x]
  | y :: ys => if before x y then x :: y :: ys else y :: insert_by x ys
  end.

(** Both sorts are stable, so for a total preorder their result is the
    unique stable ordering, which insertion sort computes. *)
Fixpoint sort_by (l : list A) : list A :=
  match l with
  | [] => []
  | x :: xs => insert_by x (sort_by xs)
  end.

End InsertBy.
End StableSort.

(** ** Page views built on the score: hero, formula display, Airbnb ranking *)
Module SiteViews.
Import Site StableSort.

(** [const hero = ranked[0];] in [rebuild], where [ranked] is the scored
    catalog sorted with [(a, b) => b.sc - a.sc]. *)
Definition hero (w : weights) (DATA : list item) : option entry :=
  hd_error (sort_desc (score_all w DATA)).

(** [Math.round]: the nearest integer, halves rounded up. *)
Definition math_round (x : Q) : Z := Qfloor (x + (1 # 2)).

Definition weight_list (w : weights) : list Q :=
  [wPrice w; wAirport w; wBeach w; wSize w; wYield w; wReno w].

(** The labels of [updateFromSliders]: [Math.round(w / total * 100) + '%']. *)
Definition slider_pcts (w : weights) : list Z :=
  map (fun x => math_round (x / total w * 100)) (weight_list w).

(** The formula display of [rebuild]: the same rounded shares, then
    [const diff = 100 - pcts.reduce((a,b)=>a+b,0); pcts[0] += diff;]. *)
Definition formula_pcts (w : weights) : list Z :=
  let pcts := map (fun x => math_round (x / total w * 100)) (weight_list w) in
  let diff := (100 - fold_left Z.add pcts 0)%Z in
  match pcts with
  | [] => []
  | p0 :: rest => (p0 + diff)%Z :: rest
  end.

(** [rebuildAirbnb]: [[...DATA].sort((a,b) => b.grossYield - a.grossYield)]. *)
Definition rebuild_airbnb (DATA : list item) : list item :=
  sort_by (fun a b => Qle_bool (grossYield b) (grossYield a)) DATA.

End SiteViews.

(** ** Python string helpers used by the scraper *)
Module PyStr.

(** [str.lower] on one ASCII character. *)
Definition lower_ascii (c : Ascii.ascii) : Ascii.ascii :=
  let n := Ascii.nat_of_ascii c in
  if Nat.leb 65 n && Nat.leb n 90 then Ascii.ascii_of_nat (n + 32) else c.

(** [str.lower] on ASCII text (the addresses are English text). *)
Fixpoint lower (s : string) : string :=
  match s with
  | EmptyString => EmptyString
  | String c s' => String (lower_ascii c) (lower s')
  end.

(** [needle in hay] *)
Fixpoint contains (needle hay : string) : bool :=
  String.prefix needle hay ||
  match hay with
  | EmptyString => false
  | String _ h => contains needle h
  end.

End PyStr.

(** ** [classify_region] *)
Module Classify.
Import Py PyStr.

(** The address tests of [classify_region], in order: the region is
    returned for the first group with a keyword contained in the
    lower-cased address. *)
Definition text_rules : list (list string * string) :=
  [(["corfu"; "kerkyra"], "ionian_islands");
   (["cephalonia"; "kefalonia"], "ionian_islands");
   (["zakynthos"; "zante"], "ionian_islands");
   (["lefkada"; "lefkas"], "ionian_islands");
   (["crete"; "chania"; "heraklion"; "rethymno"], "crete");
   (["rhodes"; "rodos"], "dodecanese");
   (["kos"], "dodecanese");
   (["mykonos"; "santorini"; "cyclades"], "cyclades");
   (["thessaloniki"; "halkidiki"; "chalkidiki"], "central_macedonia");
   (["serres"; "drama"], "northern_greece");
   (["kavala"; "thassos"; "thrace"], "northern_greece");
   (["pelion"; "magnesia"; "volos"], "pelion_sporades");
   (["skiathos"; "skopelos"; "alonnisos"], "pelion_sporades");
   (["attica"; "athens"; "piraeus"], "attica");
   (["peloponnese"; "kalamata"; "nafplio"], "peloponnese");
   (["epirus"; "ioannina"; "preveza"], "epirus")]%string.

Fixpoint first_rule (addr : string) (rules : list (list string * string)) : option string :=
  match rules with
  | [] => None
  | (kws, r) :: rs =>
      if existsb (fun kw => contains kw addr) kws then Some r else first_rule addr rs
  end.

(** The coordinate-based fallback. *)
Definition coord_region (lat_f lng_f : Q) : string :=
  if lt_bool (201 # 5) lat_f && lt_bool lng_f (43 # 2) then "epirus"
  else if lt_bool (201 # 5) lat_f && negb (lt_bool lng_f (43 # 2)) then "northern_greece"
  else if lt_bool lat_f 36 then "crete"
  else if lt_bool (77 # 2) lat_f && lt_bool lat_f (201 # 5) && lt_bool lng_f 21 then "ionian_islands"
  else if lt_bool lat_f (77 # 2) && lt_bool 27 lng_f then "dodecanese"
  else if lt_bool 36 lat_f && lt_bool lat_f 38 && lt_bool (49 # 2) lng_f && lt_bool lng_f 27
  then "cyclades"
  else if lt_bool (75 # 2) lat_f && lt_bool lat_f (77 # 2) && lt_bool (45 # 2) lng_f &&
          lt_bool lng_f (49 # 2)
  then "attica"
  else "other".

Definition classify_region (lat lng : Q) (display_address : string) : string :=
  match first_rule (lower display_address) text_rules with
  | Some r => r
  | None => coord_region lat lng
  end.

End Classify.

(** ** [run_scraper]: de-duplication, budget filter and price ordering *)
Module Pipeline.
Import Py StableSort.

Definition MAX_EUR : Z := 102000.

(** A property dict built by [scrape_rightmove_overseas], restricted to the
    keys [run_scraper] and [build_region_info] read. *)
Record listing := mkListing {
  title : string;
  price : Z;
  lat : option Q;
  lng : option Q;
  rightmove_id : string;
  region : string;
  airport_drive_min : Z;
  beach_min : Z;
  airbnb_night_rate : Z;
  airbnb_occupancy_pct : Z
}.

(** [p.get("rightmove_id") or p.get("title", "")] *)
Definition dedup_key (p : listing) : string :=
  if String.eqb (rightmove_id p) "" then title p else rightmove_id p.

(** The loop over [all_properties] with the set [seen]. *)
Fixpoint dedup_from (seen : list string) (ps : list listing) : list listing :=
  match ps with
  | [] => []
  | p :: ps' =>
      let key := dedup_key p in
      if existsb (String.eqb key) seen then dedup_from seen ps'
      else p :: dedup_from (key :: seen) ps'
  end.

Definition dedup (ps : list listing) : list listing := dedup_from [] ps.

(** [p.get("price") and p["price"] <= MAX_EUR and p.get("lat") and p.get("lng")] *)
Definition investable (p : listing) : bool :=
  negb (Z.eqb (price p) 0) && Z.leb (price p) MAX_EUR && truthy (lat p) && truthy (lng p).

(** [investment_properties.sort(key=lambda p: p["price"])] *)
Definition sort_by_price (ps : list listing) : list listing :=
  sort_by (fun a b => Z.leb (price a) (price b)) ps.

(** The list [run_scraper] saves, from the scraped listings. *)
Definition investment_properties (all_properties : list listing) : list listing :=
  sort_by_price (filter investable (dedup all_properties)).

End Pipeline.

(** ** [build_region_info] *)
Module RegionInfo.
Import Py Pipeline.

(** [region_data[r]["properties"].append(p)]; a Python dict keeps its keys
    in insertion order, an association list in that order here. *)
Fixpoint group_add (r : string) (p : listing) (g : list (string * list listing))
  : list (string * list listing) :=
  match g with
  | [] => [(r, [p])]
  | (r', ps) :: g' =>
      if String.eqb r r' then (r', ps ++ [p]) :: g' else (r', ps) :: group_add r p g'
  end.

Definition region_data (properties : list listing) : list (string * list listing) :=
  fold_left (fun g p => group_add (region p) p g) properties [].

(** The [region_names] table of [build_region_info]. *)
Definition region_names : list (string * string) :=
  [("ionian_islands", "Ionian Islands");
   ("crete", "Crete");
   ("northern_greece", "Northern Greece");
   ("pelion_sporades", "Pelion & Sporades");
   ("attica", "Athens / Attica");
   ("central_macedonia", "Central Macedonia");
   ("dodecanese", "Dodecanese Islands");
   ("cyclades", "Cyclades Islands");
   ("peloponnese", "Peloponnese");
   ("epirus", "Epirus");
   ("other", "Other Regions")]%string.

(** [sum(xs) / len(xs)] *)
Definition mean (xs : list Z) : Q :=
  inject_Z (fold_left Z.add xs 0%Z) / inject_Z (Z.of_nat (List.length xs)).

(** [annual / p["price"] * 100] with [annual = rate * 365 * occ]. *)
Definition listing_yield (p : listing) : Q :=
  inject_Z (airbnb_night_rate p) * 365 * (inject_Z (airbnb_occupancy_pct p) / 100) /
  inject_Z (price p) * 100.

Definition avg_yield (props : list listing) : Q :=
  match map listing_yield (filter (fun p => Z.ltb 0 (price p)) props) with
  | [] => 9 # 2
  | ys => fold_left Qplus ys 0 / inject_Z (Z.of_nat (List.length ys))
  end.

(** The numeric entries of [regions[r]]. *)
Record region_summary := mkRegionSummary {
  n_properties : nat;
  avg_price : Z;
  avg_airport : Z;
  avg_beach : Z;
  airport_seasonal : bool;
  avg_price_sqm : Z;
  rental_yield_mid : Q
}.

(** The body of [for r, info in region_data.items()]; [props] is never
    empty there, so the two averages without a guard never divide by 0. *)
Definition summarize (r : string) (props : list listing) : region_summary :=
  let ap := match props with [] => 0%Z | _ => py_int (mean (map price props)) end in
  {| n_properties := List.length props;
     avg_price := ap;
     avg_airport := py_int (mean (map airport_drive_min props));
     avg_beach := py_int (mean (map beach_min props));
     airport_seasonal := negb (String.eqb r "attica" || String.eqb r "northern_greece");
     avg_price_sqm := py_int (inject_Z ap / 60);
     rental_yield_mid := round1 (avg_yield props) |}.

Definition build_region_info (properties : list listing) : list (string * region_summary) :=
  map (fun '(r, props) => (r, summarize r props)) (region_data properties).

End RegionInfo.

(** ** [fetch_area_photos] *)
Module Photos.
Import Py.

(** [if lat and lng:] *)
Definition coords (lat lng : option Q) : option (Q * Q) :=
  match lat, lng with
  | Some a, Some b => if truthy lat && truthy lng then Some (a, b) else None
  | _, _ => None
  end.

(** The nested [_add]: [seen] always holds exactly the URLs of [results],
    so membership in [results] is tested. *)
Definition add_urls (results urls : list string) : list string :=
  fold_left (fun acc u => if existsb (String.eqb u) acc then acc else acc ++ [u]) urls results.

(** Step 1: the widening radius loop with its [break]. *)
Fixpoint geo_steps (search : Z -> list string) (n : nat) (radii : list Z) (results : list string)
  : list string :=
  match radii with
  | [] => results
  | r :: rs =>
      let res := add_urls results (search r) in
      if Nat.leb n (List.length res) then res else geo_steps search n rs res
  end.

Definition dq : string := String (Ascii.ascii_of_nat 34) EmptyString.

Definition landscape_query (specific : string) : string :=
  dq ++ specific ++ dq ++ " Greece landscape".

Definition village_query (specific : string) : string :=
  dq ++ specific ++ dq ++ " village town".

(** Step 1: geotagged photos, only [if lat and lng]. *)
Definition geo_stage (geosearch : Q -> Q -> Z -> list string) (lat lng : option Q) (n : nat)
  : list string :=
  match coords lat lng with
  | Some (a, b) => geo_steps (geosearch a b) n [5000; 10000; 20000]%Z []
  | None => []
  end.

(** Step 2: the text searches for the place name [specific], [None] when
    [parts] is empty. *)
Definition text_stage (text_search : string -> list string) (specific : option string) (n : nat)
  (results : list string) : list string :=
  if Nat.ltb (List.length results) n then
    match specific with
    | None => results
    | Some s =>
        let res := add_urls results (text_search (landscape_query s)) in
        if Nat.ltb (List.length res) n then add_urls res (text_search (village_query s)) else res
    end
  else results.

(** Step 3: [if len(results) < n and lat and lng: _add([_satellite_url(lat, lng)])]. *)
Definition satellite_stage (satellite_url : Q -> Q -> string) (lat lng : option Q) (n : nat)
  (results : list string) : list string :=
  match coords lat lng with
  | Some (a, b) =>
      if Nat.ltb (List.length results) n then add_urls results [satellite_url a b] else results
  | None => results
  end.

(** [fetch_area_photos(lat, lng, title, n)] returning [results[:n]].  The
    Wikimedia searches and the satellite URL are parameters; [specific] is
    the place name the function derives from the title hint. *)
Definition fetch_area_photos (geosearch : Q -> Q -> Z -> list string)
  (text_search : string -> list string) (satellite_url : Q -> Q -> string)
  (lat lng : option Q) (specific : option string) (n : nat) : list string :=
  firstn n (satellite_stage satellite_url lat lng n
              (text_stage text_search specific n (geo_stage geosearch lat lng n))).

End Photos.

(** * Fixtures: vocabulary and concrete inputs for the proofs *)
Module SiteFixtures.
Import Site.

(** A component value in [0, 1]. *)
Definition unit_interval (q : Q) : Prop := 0 <= q /\ q <= 1.

(** The order [rebuildBrowse] sorts into: descending score. *)
Definition desc (a b : entry) : Prop := sc b <= sc a.

(** A three-listing catalog: prices 50000, 70000, 90000, areas 40, 60, 80,
    everything else equal (the scenario of the specification). *)
Definition sample_item (i : Z) (p a : Q) : item :=
  mkItem i p a 30 1 5 0 "crete".

Definition sample_catalog : list item :=
  [sample_item 0 50000 40; sample_item 1 70000 60; sample_item 2 90000 80].

Definition sample_weights : weights := mkWeights 25 20 20 15 15 5.

Definition zero_weights : weights := mkWeights 0 0 0 0 0 0.

(** A catalog in which all five continuous dimensions are constant. *)
Definition flat_catalog : list item :=
  [sample_item 0 60000 50; sample_item 1 60000 50].

End SiteFixtures.

Module ScraperFixtures.
Import Py Scraper.

(** A distance for concrete examples only: degrees of latitude plus
    longitude, times 111 km.  [_haversine_km] itself is trigonometric; the
    examples below depend only on the distances being below 9999 km, as
    they are for any two points of Greece. *)
Definition approx_km (lat1 lng1 lat2 lng2 : Q) : Q :=
  111 * (Qabs (lat2 - lat1) + Qabs (lng2 - lng1)).

Definition ATH : airport_ref := mkAirport "ATH" "Athens Intl (ATH)" (379364 # 10000) (239445 # 10000) true.
Definition Athens : city_ref := mkCity "Athens" (379838 # 10000) (237275 # 10000) 3700000.

(** A beach entry without a name. *)
Definition Kalamaki : beach_ref := mkBeach "" (38 # 1) (24 # 1).

(** Crete entries of the tables, for a query near Heraklion. *)
Definition HER : airport_ref := mkAirport "HER" "Heraklion (HER)" (353397 # 10000) (251803 # 10000) true.
Definition CHQ : airport_ref := mkAirport "CHQ" "Chania (CHQ)" (355317 # 10000) (241497 # 10000) true.
Definition Heraklion : city_ref := mkCity "Heraklion" (353387 # 10000) (251442 # 10000) 175000.
Definition Chania : city_ref := mkCity "Chania" (355138 # 10000) (240180 # 10000) 110000.
Definition Falasarna : beach_ref := mkBeach "Falasarna" (3549 # 100) (2357 # 100).
Definition Karteros : beach_ref := mkBeach "" (35335 # 1000) (25195 # 1000).
Definition Amoudara : beach_ref := mkBeach "Amoudara" (3534 # 100) (2508 # 100).

(** The record assembled from the three lookup results. *)
Definition mk_prox (ra : string * string * Z * bool) (rb : string * Q * Q * Q * Z * url)
  (rc : string * Z * Z) : prox :=
  let '(ac, an, am, ay) := ra in
  let '(bn, bla, bln, bkm, bmin, burl) := rb in
  let '(cn, cp, cm) := rc in
  {| airport_code := ac; airport_name := an; airport_min := am; airport_yr := ay;
     beach_name := bn; beach_lat := bla; beach_lng := bln; beach_km := bkm;
     beach_min_val := bmin; beach_directions_url := burl;
     city_name := cn; city_pop := cp; city_min := cm |}.

End ScraperFixtures.

Module PipelineFixtures.
Import Pipeline.

(** A listing with coordinates in Greece, keyed by its title. *)
Definition sample_listing (t : string) (pr : Z) (rg : string) (air beach : Z) : listing :=
  mkListing t pr (Some (38 # 1)) (Some (24 # 1)) t rg air beach 60 50.

Definition sample_listings : list listing :=
  [sample_listing "A" 80000 "crete" 40 10;
   sample_listing "B" 95000 "crete" 55 25;
   sample_listing "C" 60000 "attica" 30 15]%string.

End PipelineFixtures.

(** * Proofs: scoring engine *)
Module SiteProofs.
Import Site SiteFixtures.

(** *** Catalog bounds *)

Lemma fold_Qmin_le_acc (l : list Q) (acc : Q) : fold_left Qmin l acc <= acc.
Proof.
  revert acc; induction l as [|a t IH]; intros acc; simpl.
  - apply Qle_refl.
  - eapply Qle_trans; [apply IH | apply Q.le_min_l].
Qed.

Lemma fold_Qmin_le_in (l : list Q) (acc y : Q) : In y l -> fold_left Qmin l acc <= y.
Proof.
  revert acc; induction l as [|a t IH]; intros acc Hin; simpl in *.
  - contradiction.
  - destruct Hin as [<- | Hin].
    + eapply Qle_trans; [apply fold_Qmin_le_acc | apply Q.le_min_r].
    + apply IH, Hin.
Qed.

Lemma fold_Qmax_ge_acc (l : list Q) (acc : Q) : acc <= fold_left Qmax l acc.
Proof.
  revert acc; induction l as [|a t IH]; intros acc; simpl.
  - apply Qle_refl.
  - eapply Qle_trans; [apply Q.le_max_l | apply IH].
Qed.

Lemma fold_Qmax_ge_in (l : list Q) (acc y : Q) : In y l -> y <= fold_left Qmax l acc.
Proof.
  revert acc; induction l as [|a t IH]; intros acc Hin; simpl in *.
  - contradiction.
  - destruct Hin as [<- | Hin].
    + eapply Qle_trans; [apply Q.le_max_r | apply fold_Qmax_ge_acc].
    + apply IH, Hin.
Qed.

Lemma math_min_le (l : list Q) (y : Q) : In y l -> math_min l <= y.
Proof.
  destruct l as [|x t]; simpl; intros Hin; [contradiction|].
  destruct Hin as [<- | Hin]; [apply fold_Qmin_le_acc | apply fold_Qmin_le_in, Hin].
Qed.

Lemma math_max_ge (l : list Q) (y : Q) : In y l -> y <= math_max l.
Proof.
  destruct l as [|x t]; simpl; intros Hin; [contradiction|].
  destruct Hin as [<- | Hin]; [apply fold_Qmax_ge_acc | apply fold_Qmax_ge_in, Hin].
Qed.

Lemma Qeq_bool_false_lt (mn mx : Q) :
  mn <= mx -> Qeq_bool mx mn = false -> mn < mx.
Proof.
  intros Hle Hb.
  destruct (Qle_lt_or_eq _ _ Hle) as [Hlt | Heq]; [exact Hlt|].
  apply Qeq_bool_neq in Hb. exfalso; apply Hb; symmetry; exact Heq.
Qed.

(** *** Each component lies in [0, 1] *)

Lemma norm_lower_range (mn mx v : Q) :
  mn <= v -> v <= mx -> 0 <= norm_lower mn mx v /\ norm_lower mn mx v <= 1.
Proof.
  intros H1 H2; unfold norm_lower.
  destruct (Qeq_bool mx mn) eqn:E; [split; discriminate|].
  assert (Hlt : mn < mx) by (apply Qeq_bool_false_lt; [lra | exact E]).
  assert (Hd : 0 < mx - mn) by lra.
  split.
  - apply Qle_shift_div_l; [exact Hd | lra].
  - apply Qle_shift_div_r; [exact Hd | lra].
Qed.

Lemma norm_higher_range (mn mx v : Q) :
  mn <= v -> v <= mx -> 0 <= norm_higher mn mx v /\ norm_higher mn mx v <= 1.
Proof.
  intros H1 H2; unfold norm_higher.
  destruct (Qeq_bool mx mn) eqn:E; [split; discriminate|].
  assert (Hlt : mn < mx) by (apply Qeq_bool_false_lt; [lra | exact E]).
  assert (Hd : 0 < mx - mn) by lra.
  split.
  - apply Qle_shift_div_l; [exact Hd | lra].
  - apply Qle_shift_div_r; [exact Hd | lra].
Qed.

Lemma normalize_range (DATA : list item) (d : item) :
  In d DATA ->
  let n := normalize DATA d in
  unit_interval (nPrice n) /\ unit_interval (nAirport n) /\ unit_interval (nBeach n) /\
  unit_interval (nArea n) /\ unit_interval (nYield n) /\ unit_interval (nReno n).
Proof.
  intros Hin; unfold normalize, unit_interval; cbn zeta; simpl.
  repeat split;
    try (apply norm_lower_range || apply norm_higher_range);
    try (apply math_min_le || apply math_max_ge); try (apply in_map; exact Hin);
    try (destruct (reno d =? 0)%Z; discriminate).
  all: first [ apply (norm_lower_range _ _ _ (math_min_le _ _ (in_map _ _ _ Hin))
                                            (math_max_ge _ _ (in_map _ _ _ Hin)))
             | apply (norm_higher_range _ _ _ (math_min_le _ _ (in_map _ _ _ Hin))
                                             (math_max_ge _ _ (in_map _ _ _ Hin))) ].
Qed.

(** *** Weighted average *)

Lemma weighted_term (n w : Q) : unit_interval n -> 0 <= w -> 0 <= n * w /\ n * w <= w.
Proof.
  intros [H0 H1] Hw; split.
  - apply Qmult_le_0_compat; assumption.
  - setoid_replace w with (1 * w) at 2 by ring.
    apply Qmult_le_compat_r; assumption.
Qed.

Lemma ratio_percent_range (S T : Q) : 0 <= S -> S <= T -> 0 < T -> 0 <= S / T * 100 /\ S / T * 100 <= 100.
Proof.
  intros H0 H1 HT.
  assert (0 <= S / T) by (apply Qle_shift_div_l; [exact HT | lra]).
  assert (S / T <= 1) by (apply Qle_shift_div_r; [exact HT | lra]).
  split; lra.
Qed.

Lemma weight_sum_nonneg (w : weights) : weights_nonneg w -> 0 <= weight_sum w.
Proof. unfold weights_nonneg, weight_sum; lra. Qed.

(** [total] is positive and bounds the weighted sum of components in [0,1]. *)
Lemma total_bounds (w : weights) (n : norm) :
  weights_nonneg w ->
  unit_interval (nPrice n) -> unit_interval (nAirport n) -> unit_interval (nBeach n) ->
  unit_interval (nArea n) -> unit_interval (nYield n) -> unit_interval (nReno n) ->
  let S := nPrice n * wPrice w + nAirport n * wAirport w + nBeach n * wBeach w +
           nArea n * wSize w + nYield n * wYield w + nReno n * wReno w in
  0 < total w /\ 0 <= S /\ S <= total w.
Proof.
  intros Hw H1 H2 H3 H4 H5 H6 S.
  pose proof Hw as (W1 & W2 & W3 & W4 & W5 & W6).
  destruct (weighted_term _ _ H1 W1), (weighted_term _ _ H2 W2), (weighted_term _ _ H3 W3),
    (weighted_term _ _ H4 W4), (weighted_term _ _ H5 W5), (weighted_term _ _ H6 W6).
  unfold total; cbn zeta.
  destruct (Qeq_bool (weight_sum w) 0) eqn:E.
  - apply Qeq_bool_iff in E. unfold weight_sum in E. subst S.
    repeat split; lra.
  - pose proof (weight_sum_nonneg w Hw) as Hs.
    assert (0 < weight_sum w) by (apply Qeq_bool_false_lt; assumption).
    unfold weight_sum in *; subst S. repeat split; lra.
Qed.

(** *** Claims on the score *)

(** C1: for a listing [d] of the catalog [DATA], normalized against
    [DATA]'s own bounds, and any six non-negative weights, the score lies
    in [0, 100]. *)
Theorem score_within_0_100 (DATA : list item) (d : item) (w : weights) :
  In d DATA -> weights_nonneg w ->
  0 <= score w (normalize DATA d) /\ score w (normalize DATA d) <= 100.
Proof.
  intros Hin Hw.
  destruct (normalize_range DATA d Hin) as (H1 & H2 & H3 & H4 & H5 & H6).
  destruct (total_bounds w _ Hw H1 H2 H3 H4 H5 H6) as (HT & HS0 & HS1).
  unfold score. apply ratio_percent_range; assumption.
Qed.

Lemma score_within_0_100_witness :
  (In (sample_item 1 70000 60) sample_catalog /\ weights_nonneg sample_weights) /\
  (0 <= score sample_weights (normalize sample_catalog (sample_item 1 70000 60)) /\
   score sample_weights (normalize sample_catalog (sample_item 1 70000 60)) <= 100).
Proof.
  assert (Hin : In (sample_item 1 70000 60) sample_catalog) by (simpl; auto).
  assert (Hw : weights_nonneg sample_weights)
    by (unfold weights_nonneg; simpl; repeat split; discriminate).
  split; [split; assumption|].
  apply (score_within_0_100 sample_catalog (sample_item 1 70000 60) sample_weights Hin Hw).
Defined.

(** C2: with all six weights zero, [total] is 1 (so nothing is divided by
    zero) and the score of every listing is exactly 0. *)
Theorem zero_weights_score_zero (w : weights) (n : norm) :
  wPrice w == 0 -> wAirport w == 0 -> wBeach w == 0 ->
  wSize w == 0 -> wYield w == 0 -> wReno w == 0 ->
  total w == 1 /\ score w n == 0.
Proof.
  intros H1 H2 H3 H4 H5 H6.
  assert (Ht : total w == 1).
  { unfold total; cbn zeta.
    replace (Qeq_bool (weight_sum w) 0) with true; [reflexivity|].
    symmetry; apply Qeq_bool_iff; unfold weight_sum.
    rewrite H1, H2, H3, H4, H5, H6; reflexivity. }
  split; [exact Ht|].
  unfold score; rewrite Ht, H1, H2, H3, H4, H5, H6; field.
Qed.

Lemma zero_weights_score_zero_witness :
  total zero_weights == 1 /\
  score zero_weights (normalize sample_catalog (sample_item 0 50000 40)) == 0.
Proof.
  apply (zero_weights_score_zero zero_weights); reflexivity.
Defined.

(** C3: on each continuous dimension, when the catalog maximum equals the
    catalog minimum, every listing's component is exactly 0.5.  The
    components are computed without the weights. *)
Theorem degenerate_range_half (DATA : list item) (d : item) :
  let n := normalize DATA d in
  (math_max (map price DATA) == math_min (map price DATA) -> nPrice n = 1 # 2) /\
  (math_max (map airport DATA) == math_min (map airport DATA) -> nAirport n = 1 # 2) /\
  (math_max (map beachKm DATA) == math_min (map beachKm DATA) -> nBeach n = 1 # 2) /\
  (math_max (map area DATA) == math_min (map area DATA) -> nArea n = 1 # 2) /\
  (math_max (map grossYield DATA) == math_min (map grossYield DATA) -> nYield n = 1 # 2).
Proof.
  cbn zeta; unfold normalize; cbn zeta; simpl.
  unfold norm_lower, norm_higher.
  repeat split; intros H; apply Qeq_bool_iff in H; rewrite H; reflexivity.
Qed.

Lemma degenerate_range_half_witness :
  let n := normalize flat_catalog (sample_item 1 60000 50) in
  (math_max (map price flat_catalog) == math_min (map price flat_catalog) /\
   math_max (map airport flat_catalog) == math_min (map airport flat_catalog) /\
   math_max (map beachKm flat_catalog) == math_min (map beachKm flat_catalog) /\
   math_max (map area flat_catalog) == math_min (map area flat_catalog) /\
   math_max (map grossYield flat_catalog) == math_min (map grossYield flat_catalog)) /\
  (nPrice n = 1 # 2 /\ nAirport n = 1 # 2 /\ nBeach n = 1 # 2 /\
   nArea n = 1 # 2 /\ nYield n = 1 # 2).
Proof.
  pose proof (degenerate_range_half flat_catalog (sample_item 1 60000 50)) as H.
  cbn zeta in H; destruct H as (H1 & H2 & H3 & H4 & H5).
  assert (E1 : math_max (map price flat_catalog) == math_min (map price flat_catalog)) by reflexivity.
  assert (E2 : math_max (map airport flat_catalog) == math_min (map airport flat_catalog)) by reflexivity.
  assert (E3 : math_max (map beachKm flat_catalog) == math_min (map beachKm flat_catalog)) by reflexivity.
  assert (E4 : math_max (map area flat_catalog) == math_min (map area flat_catalog)) by reflexivity.
  assert (E5 : math_max (map grossYield flat_catalog) == math_min (map grossYield flat_catalog)) by reflexivity.
  cbn zeta.
  exact (conj (conj E1 (conj E2 (conj E3 (conj E4 E5))))
              (conj (H1 E1) (conj (H2 E2) (conj (H3 E3) (conj (H4 E4) (H5 E5)))))).
Defined.

(** *** Monotonicity in price *)

Lemma norm_higher_compat (mn mx v v' : Q) : v == v' -> norm_higher mn mx v == norm_higher mn mx v'.
Proof.
  intros H; unfold norm_higher; destruct (Qeq_bool mx mn); [reflexivity | rewrite H; reflexivity].
Qed.

Lemma norm_lower_compat (mn mx v v' : Q) : v == v' -> norm_lower mn mx v == norm_lower mn mx v'.
Proof.
  intros H; unfold norm_lower; destruct (Qeq_bool mx mn); [reflexivity | rewrite H; reflexivity].
Qed.

(** A strictly lower value gets a component at least as large on a
    lower-is-better dimension. *)
Lemma norm_lower_antitone (mn mx v v' : Q) :
  mn <= v -> v < v' -> v' <= mx -> norm_lower mn mx v' <= norm_lower mn mx v.
Proof.
  intros H1 H2 H3; unfold norm_lower.
  assert (Hlt : mn < mx) by lra.
  replace (Qeq_bool mx mn) with false.
  2:{ symmetry; apply not_true_iff_false; intros E; apply Qeq_bool_iff in E; lra. }
  unfold Qdiv; apply Qmult_le_compat_r; [lra|].
  apply Qinv_le_0_compat; lra.
Qed.

Lemma score_le_compat (w : weights) (a b : norm) :
  0 < total w ->
  nPrice b * wPrice w + nAirport b * wAirport w + nBeach b * wBeach w +
  nArea b * wSize w + nYield b * wYield w + nReno b * wReno w <=
  nPrice a * wPrice w + nAirport a * wAirport w + nBeach a * wBeach w +
  nArea a * wSize w + nYield a * wYield w + nReno a * wReno w ->
  score w b <= score w a.
Proof.
  intros HT HS; unfold score, Qdiv.
  apply Qmult_le_compat_r; [|discriminate].
  apply Qmult_le_compat_r; [exact HS|].
  apply Qinv_le_0_compat; lra.
Qed.

Lemma total_pos_of_price (w : weights) : weights_nonneg w -> 0 < wPrice w -> 0 < total w.
Proof.
  intros Hw Hp; pose proof Hw as (W1 & W2 & W3 & W4 & W5 & W6).
  unfold total; cbn zeta.
  replace (Qeq_bool (weight_sum w) 0) with false.
  - unfold weight_sum; lra.
  - symmetry; apply not_true_iff_false; intros E; apply Qeq_bool_iff in E.
    unfold weight_sum in E; lra.
Qed.

(** C5: two listings of the catalog that agree on every scoring dimension
    except price, the first strictly cheaper, with non-negative weights and
    a positive price weight: the cheaper one scores at least as high. *)
Theorem cheaper_scores_at_least (DATA : list item) (A B : item) (w : weights) :
  In A DATA -> In B DATA -> weights_nonneg w -> 0 < wPrice w ->
  price A < price B ->
  airport A == airport B -> beachKm A == beachKm B -> area A == area B ->
  grossYield A == grossYield B -> reno A = reno B ->
  score w (normalize DATA B) <= score w (normalize DATA A).
Proof.
  intros HA HB Hw Hp Hlt E1 E2 E3 E4 E5.
  pose proof Hw as (W1 & W2 & W3 & W4 & W5 & W6).
  apply score_le_compat; [apply total_pos_of_price; assumption|].
  unfold normalize; cbn zeta; simpl.
  rewrite (norm_lower_compat _ _ _ _ E1), (norm_lower_compat _ _ _ _ E2),
    (norm_higher_compat _ _ _ _ E3), (norm_higher_compat _ _ _ _ E4), E5.
  assert (Hn : norm_lower (math_min (map price DATA)) (math_max (map price DATA)) (price B) <=
               norm_lower (math_min (map price DATA)) (math_max (map price DATA)) (price A)).
  { apply norm_lower_antitone; [apply math_min_le, in_map, HA | exact Hlt |
                                 apply math_max_ge, in_map, HB]. }
  assert (Hm := Qmult_le_compat_r _ _ (wPrice w) Hn W1).
  lra.
Qed.

Lemma cheaper_scores_at_least_witness :
  let A := sample_item 0 50000 40 in
  let B := sample_item 5 70000 40 in
  let DATA := [A; B; sample_item 2 90000 80] in
  (In A DATA /\ In B DATA /\ weights_nonneg sample_weights /\ 0 < wPrice sample_weights /\
   price A < price B /\ airport A == airport B /\ beachKm A == beachKm B /\
   area A == area B /\ grossYield A == grossYield B /\ reno A = reno B) /\
  score sample_weights (normalize DATA B) <= score sample_weights (normalize DATA A).
Proof.
  cbn zeta.
  assert (Hw : weights_nonneg sample_weights)
    by (unfold weights_nonneg; simpl; repeat split; discriminate).
  split.
  - repeat split; simpl; auto; try reflexivity; try discriminate.
  - apply cheaper_scores_at_least; simpl; auto; try reflexivity.
Defined.

(** *** Browse ranking *)

Lemma Qle_bool_false (x y : Q) : Qle_bool x y = false -> y < x.
Proof.
  intros E; apply Qnot_le_lt; intros H; apply Qle_bool_iff in H; congruence.
Qed.

Lemma insert_desc_perm (x : entry) (l : list entry) : Permutation (insert_desc x l) (x :: l).
Proof.
  induction l as [|y ys IH]; simpl; [reflexivity|].
  destruct (Qle_bool (sc y) (sc x)); [reflexivity|].
  eapply perm_trans; [apply perm_skip, IH | apply perm_swap].
Qed.

Lemma sort_desc_perm (l : list entry) : Permutation (sort_desc l) l.
Proof.
  induction l as [|x xs IH]; simpl; [reflexivity|].
  eapply perm_trans; [apply insert_desc_perm | apply perm_skip, IH].
Qed.

Lemma insert_desc_sorted (x : entry) (l : list entry) :
  StronglySorted desc l -> StronglySorted desc (insert_desc x l).
Proof.
  induction l as [|y ys IH]; simpl; intros Hs.
  - repeat constructor.
  - apply StronglySorted_inv in Hs as [Hys Hall].
    destruct (Qle_bool (sc y) (sc x)) eqn:E.
    + apply Qle_bool_iff in E.
      constructor; [constructor; assumption|].
      constructor; [exact E|].
      eapply Forall_impl; [|exact Hall]. unfold desc; intros z Hz; lra.
    + apply Qle_bool_false in E.
      constructor; [apply IH, Hys|].
      apply Forall_forall; intros z Hz.
      apply (Permutation_in _ (insert_desc_perm x ys)) in Hz as [<- | Hz].
      * unfold desc; lra.
      * exact (proj1 (Forall_forall _ _) Hall z Hz).
Qed.

Lemma sort_desc_sorted (l : list entry) : StronglySorted desc (sort_desc l).
Proof.
  induction l as [|x xs IH]; simpl; [constructor|].
  apply insert_desc_sorted, IH.
Qed.

Lemma insert_desc_head (x : entry) (l : list entry) :
  (forall z, In z l -> sc z <= sc x) -> insert_desc x l = x :: l.
Proof.
  destruct l as [|y ys]; simpl; intros H; [reflexivity|].
  replace (Qle_bool (sc y) (sc x)) with true; [reflexivity|].
  symmetry; apply Qle_bool_iff, H; left; reflexivity.
Qed.

(** Inserting into a descending list commutes with removing elements. *)
Lemma filter_insert_desc (P : entry -> bool) (x : entry) (L : list entry) :
  StronglySorted desc L ->
  filter P (insert_desc x L) = if P x then insert_desc x (filter P L) else filter P L.
Proof.
  induction L as [|y ys IH]; intros Hs.
  - simpl; destruct (P x); reflexivity.
  - apply StronglySorted_inv in Hs as [Hys Hall].
    simpl insert_desc.
    destruct (Qle_bool (sc y) (sc x)) eqn:E.
    + apply Qle_bool_iff in E as E'.
      simpl filter.
      destruct (P x) eqn:Px, (P y) eqn:Py; simpl; try rewrite E; try reflexivity.
      symmetry; apply insert_desc_head.
      intros z Hz; apply filter_In in Hz as [Hz _].
      pose proof (proj1 (Forall_forall _ _) Hall z Hz) as Hd; unfold desc in Hd; lra.
    + simpl filter; rewrite IH by exact Hys.
      destruct (P x) eqn:Px, (P y) eqn:Py; simpl; try rewrite E; reflexivity.
Qed.

(** The stable sort commutes with [filter]. *)
Lemma sort_desc_filter (P : entry -> bool) (l : list entry) :
  sort_desc (filter P l) = filter P (sort_desc l).
Proof.
  induction l as [|x xs IH]; simpl; [reflexivity|].
  rewrite filter_insert_desc by apply sort_desc_sorted.
  destruct (P x); simpl; rewrite IH; reflexivity.
Qed.

Lemma sort_desc_const (s : Q) (l : list entry) :
  (forall z, In z l -> sc z == s) -> sort_desc l = l.
Proof.
  induction l as [|x xs IH]; simpl; intros H; [reflexivity|].
  rewrite IH by (intros z Hz; apply H; right; exact Hz).
  apply insert_desc_head; intros z Hz.
  rewrite (H z (or_intror Hz)), (H x (or_introl eq_refl)); apply Qle_refl.
Qed.

(** Entries of equal score keep their input order. *)
Lemma sort_desc_stable (s : Q) (l : list entry) :
  filter (fun e => Qeq_bool (sc e) s) (sort_desc l) = filter (fun e => Qeq_bool (sc e) s) l.
Proof.
  rewrite <- sort_desc_filter.
  apply (sort_desc_const s); intros z Hz.
  apply filter_In in Hz as [_ Hz]; apply Qeq_bool_iff, Hz.
Qed.

Lemma gt_max_false (v : Q) (m : option Q) :
  gt_max v m = false <-> (forall x, m = Some x -> v <= x).
Proof.
  destruct m as [x|]; simpl; split.
  - intros H y [= <-]. apply Qle_bool_iff. destruct (Qle_bool v x); [reflexivity | discriminate].
  - intros H. rewrite (proj2 (Qle_bool_iff _ _) (H x eq_refl)); reflexivity.
  - intros _ y [=].
  - reflexivity.
Qed.

Lemma keep_matches (f : filters) (d : item) : keep f d = true <-> matches f d.
Proof.
  unfold keep, matches.
  rewrite <- (gt_max_false (price d)), <- (gt_max_false (airport d)).
  destruct (String.eqb_spec (fRegion f) ""%string) as [H0|H0];
  destruct (String.eqb_spec (region d) (fRegion f)) as [H1|H1];
  destruct (gt_max (price d) (priceMax f)); destruct (gt_max (airport d) (airportMax f));
  simpl; intuition congruence.
Qed.

Lemma score_all_sc (w : weights) (DATA : list item) (e : entry) :
  In e (score_all w DATA) -> sc e = score w (normalize DATA (ent_item e)).
Proof.
  unfold score_all, normalize_all; rewrite map_map.
  intros Hin; apply in_map_iff in Hin as (d & <- & _); reflexivity.
Qed.

(** C4: the browse list holds exactly the scored listings that meet every
    supplied criterion, each with its score computed against the whole
    catalog; it is in descending score order, listings of equal score keep
    their input order, and it coincides with the unfiltered ranking with
    the non-matching listings removed. *)
Theorem rebuild_browse_spec (w : weights) (f : filters) (DATA : list item) :
  let E := score_all w DATA in
  let r := rebuild_browse w f DATA in
  Permutation r (filter (fun e => keep f (ent_item e)) E) /\
  (forall e, In e r <-> In e E /\ matches f (ent_item e)) /\
  (forall e, In e r -> sc e = score w (normalize DATA (ent_item e))) /\
  StronglySorted (fun a b => sc b <= sc a) r /\
  (forall s, filter (fun e => Qeq_bool (sc e) s) r =
             filter (fun e => Qeq_bool (sc e) s) (filter (fun e => keep f (ent_item e)) E)) /\
  r = filter (fun e => keep f (ent_item e)) (sort_desc E).
Proof.
  cbn zeta; unfold rebuild_browse.
  assert (Hp := sort_desc_perm (filter (fun e => keep f (ent_item e)) (score_all w DATA))).
  assert (Hin : forall e, In e (sort_desc (filter (fun e => keep f (ent_item e)) (score_all w DATA)))
                  <-> In e (score_all w DATA) /\ matches f (ent_item e)).
  { intros e; split; intros H.
    - apply (Permutation_in _ Hp), filter_In in H as [H1 H2].
      split; [exact H1 | apply keep_matches, H2].
    - apply (Permutation_in _ (Permutation_sym Hp)), filter_In.
      destruct H as [H1 H2]; split; [exact H1 | apply keep_matches, H2]. }
  split; [exact Hp|].
  split; [exact Hin|].
  split; [intros e He; apply score_all_sc, (proj1 (Hin e) He)|].
  split; [apply sort_desc_sorted|].
  split; [intros s; apply sort_desc_stable|].
  apply sort_desc_filter.
Qed.

End SiteProofs.

(** * Proofs: drive times, lookups, enrichment, derived metrics *)
Module ScraperProofs.
Import Py Scraper ScraperFixtures.

(** [lra] after turning division by the code's constants into products. *)
Ltac qlra :=
  unfold Qdiv in *;
  try setoid_replace (/ 50) with (1 # 50) by reflexivity;
  try setoid_replace (/ 40) with (1 # 40) by reflexivity;
  try setoid_replace (/ 100) with (1 # 100) by reflexivity;
  try setoid_replace (/ 10) with (1 # 10) by reflexivity;
  lra.

Lemma Qle_bool_false_lt' (x y : Q) : Qle_bool x y = false -> y < x.
Proof.
  intros E; apply Qnot_le_lt; intros H; apply Qle_bool_iff in H; congruence.
Qed.

Lemma py_int_nonneg (x : Q) : 0 <= x -> py_int x = Qfloor x.
Proof.
  intros H; unfold py_int.
  replace (Qle_bool 0 x) with true; [reflexivity|].
  symmetry; apply Qle_bool_iff, H.
Qed.

Lemma lt_bool_true (a b : Q) : lt_bool a b = true <-> a < b.
Proof.
  unfold lt_bool; rewrite negb_true_iff; split.
  - intros E; apply Qnot_le_lt; intros H; apply Qle_bool_iff in H; congruence.
  - intros H; apply not_true_iff_false; intros E; apply Qle_bool_iff in E; lra.
Qed.

Lemma lt_bool_false (a b : Q) : lt_bool a b = false <-> b <= a.
Proof.
  unfold lt_bool; rewrite negb_false_iff; apply Qle_bool_iff.
Qed.

(** *** Drive-time estimates (C6) *)


Lemma Qfloor_ge_inject (z : Z) (x : Q) : inject_Z z <= x -> (z <= Qfloor x)%Z.
Proof.
  intros H; rewrite <- (Qfloor_Z z); apply Qfloor_resp_le, H.
Qed.


(** *** Empty reference sets (C7) *)

(** The claim fails for beaches: against an empty beach set the lookup
    returns a result ("Unknown", the query point, 0 km, 30 minutes, a
    map-search link) rather than failing.  The empty set is never scanned,
    so the distance function plays no part. *)
Lemma nearest_beach_empty_returns_sentinel :
  nearest_beach approx_km [] (3794 # 100) (2372 # 100) =
  Ok ("Unknown"%string, 3794 # 100, 2372 # 100, 0, 30%Z, SearchUrl (3794 # 100) (2372 # 100)).
Proof. reflexivity. Qed.

(** C7, as the code does it: an empty beach set yields the sentinel
    result; an empty airport or city set makes the lookup raise (it
    unpacks or subscripts [None]). *)
Theorem empty_reference_sets (haversine_km : Q -> Q -> Q -> Q -> Q) (lat lng : Q) :
  nearest_beach haversine_km [] lat lng =
    Ok ("Unknown"%string, lat, lng, 0, 30%Z, SearchUrl lat lng) /\
  nearest_airport haversine_km [] lat lng = Err TypeError /\
  nearest_city haversine_km [] lat lng = Err TypeError.
Proof. repeat split. Qed.

(** *** Proximity fields of a listing (C8) *)

(** The claim fails twice over.  A listing without coordinates gets
    [beach_km = 0] and [nearest_city_pop = 0] (numeric zeros) and 60/30
    minute defaults; and with an empty beach set a listing with coordinates
    gets its airport and city fields computed but the beach fields of the
    sentinel. *)
Lemma listing_prox_zero_defaults_and_partial :
  listing_prox approx_km [ATH] [] [Athens] None None = Ok default_prox /\
  beach_km default_prox = 0 /\ city_pop default_prox = 0%Z /\
  airport_min default_prox = 60%Z /\ beach_min_val default_prox = 30%Z /\
  (exists p, listing_prox approx_km [ATH] [] [Athens]
               (Some (379364 # 10000)) (Some (239445 # 10000)) = Ok p /\
             airport_code p = "ATH"%string /\ city_name p = "Athens"%string /\
             beach_name p = "Unknown"%string /\ beach_km p = 0 /\ beach_min_val p = 30%Z).
Proof.
  split; [reflexivity|].
  repeat split; try reflexivity.
  eexists; split; [vm_compute; reflexivity|].
  repeat split; reflexivity.
Qed.

Lemma Qeq_bool_opp_0 (a : Q) : Qeq_bool (- a) 0 = Qeq_bool a 0.
Proof. destruct a as [n d]; unfold Qeq_bool, Qopp; simpl; rewrite !Z.mul_1_r; destruct n; reflexivity. Qed.

Lemma truthy_false (a : Q) : truthy (Some a) = false <-> a == 0.
Proof. unfold truthy; rewrite negb_false_iff; apply Qeq_bool_iff. Qed.

(** The proximity block once the coordinates are known to be truthy. *)
Lemma enrich_truthy (haversine_km : Q -> Q -> Q -> Q -> Q)
  (airports : list airport_ref) (beaches : list beach_ref) (cities : list city_ref) (a b : Q) :
  ~ a == 0 -> ~ b == 0 ->
  enrich haversine_km airports beaches cities (Some a) (Some b) =
    (ra <- nearest_airport haversine_km airports a b ;;
     rb <- nearest_beach haversine_km beaches a b ;;
     rc <- nearest_city haversine_km cities a b ;;
     Ok (mk_prox ra rb rc)).
Proof.
  intros Ha Hb; unfold enrich.
  replace (truthy (Some a)) with true
    by (symmetry; apply not_false_iff_true; rewrite truthy_false; exact Ha).
  replace (truthy (Some b)) with true
    by (symmetry; apply not_false_iff_true; rewrite truthy_false; exact Hb).
  simpl.
  destruct (nearest_airport _ _ _ _) as [[[[ac an] am] ay]|]; simpl; [|reflexivity].
  destruct (nearest_beach _ _ _ _) as [[[[[[bn bla] bln] bkm] bmin] burl]|]; simpl; [|reflexivity].
  destruct (nearest_city _ _ _ _) as [[[cn cp] cm]|]; reflexivity.
Qed.

Lemma enrich_falsy (haversine_km : Q -> Q -> Q -> Q -> Q)
  (airports : list airport_ref) (beaches : list beach_ref) (cities : list city_ref) (lat lng : option Q) :
  (lat = None \/ lng = None \/ (exists a, lat = Some a /\ a == 0) \/ (exists b, lng = Some b /\ b == 0)) ->
  enrich haversine_km airports beaches cities lat lng = Ok default_prox.
Proof.
  unfold enrich.
  intros [-> | [-> | [(a & -> & Ha) | (b & -> & Hb)]]];
    [reflexivity | destruct lat; reflexivity | |].
  - apply truthy_false in Ha; rewrite Ha; destruct lng; reflexivity.
  - apply truthy_false in Hb; rewrite Hb; destruct lat as [a|]; [|reflexivity].
    rewrite andb_false_r; reflexivity.
Qed.

(** C8, as the code does it, for any distance function and reference
    tables:
    - a listing with a missing coordinate, a zero coordinate, or
      coordinates whose absolute values fall outside the box
      33 < lat < 43, 18 < lng < 31 gets the fixed defaults;
    - a listing inside the box gets its fields from the three lookups at
      the absolute values of its coordinates, and it is not kept (the
      enrichment raises) exactly when one of the lookups raises;
    - so a listing that is kept has either the defaults or all of its
      fields from the three lookups;
    - with an empty beach set those beach fields are the sentinel while
      the airport and city fields are real. *)
Theorem listing_prox_defaults_or_lookups (haversine_km : Q -> Q -> Q -> Q -> Q)
  (airports : list airport_ref) (beaches : list beach_ref) (cities : list city_ref)
  (lat lng : option Q) :
  listing_prox haversine_km airports beaches cities None lng = Ok default_prox /\
  listing_prox haversine_km airports beaches cities lat None = Ok default_prox /\
  (forall a, lat = Some a -> a == 0 ->
     listing_prox haversine_km airports beaches cities lat lng = Ok default_prox) /\
  (forall b, lng = Some b -> b == 0 ->
     listing_prox haversine_km airports beaches cities lat lng = Ok default_prox) /\
  (forall a b, lat = Some a -> lng = Some b ->
     ~ (33 < Qabs a /\ Qabs a < 43 /\ 18 < Qabs b /\ Qabs b < 31) ->
     listing_prox haversine_km airports beaches cities lat lng = Ok default_prox) /\
  (forall a b, lat = Some a -> lng = Some b ->
     33 < Qabs a -> Qabs a < 43 -> 18 < Qabs b -> Qabs b < 31 ->
     (forall p, listing_prox haversine_km airports beaches cities lat lng = Ok p <->
        exists ra rb rc,
          nearest_airport haversine_km airports (Qabs a) (Qabs b) = Ok ra /\
          nearest_beach haversine_km beaches (Qabs a) (Qabs b) = Ok rb /\
          nearest_city haversine_km cities (Qabs a) (Qabs b) = Ok rc /\
          p = mk_prox ra rb rc) /\
     ((exists e, listing_prox haversine_km airports beaches cities lat lng = Err e) <->
        (exists e, nearest_airport haversine_km airports (Qabs a) (Qabs b) = Err e) \/
        (exists e, nearest_beach haversine_km beaches (Qabs a) (Qabs b) = Err e) \/
        (exists e, nearest_city haversine_km cities (Qabs a) (Qabs b) = Err e))) /\
  (forall p, listing_prox haversine_km airports beaches cities lat lng = Ok p ->
     p = default_prox \/
     exists a b ra rb rc,
       sanitize lat lng = (Some a, Some b) /\
       nearest_airport haversine_km airports a b = Ok ra /\
       nearest_beach haversine_km beaches a b = Ok rb /\
       nearest_city haversine_km cities a b = Ok rc /\
       p = mk_prox ra rb rc) /\
  (forall a b ra rc,
     sanitize lat lng = (Some a, Some b) -> ~ a == 0 -> ~ b == 0 -> beaches = [] ->
     nearest_airport haversine_km airports a b = Ok ra ->
     nearest_city haversine_km cities a b = Ok rc ->
     listing_prox haversine_km airports beaches cities lat lng =
       Ok (mk_prox ra ("Unknown"%string, a, b, 0, 30%Z, SearchUrl a b) rc)).
Proof.
  split; [reflexivity|].
  split; [unfold listing_prox, sanitize; destruct lat; reflexivity|].
  split.
  { intros a -> Ha; unfold listing_prox, sanitize.
    apply truthy_false in Ha as Ht; rewrite Ht; simpl.
    destruct lng as [b|]; apply enrich_falsy; eauto 6. }
  split.
  { intros b -> Hb; unfold listing_prox, sanitize.
    apply truthy_false in Hb as Ht; rewrite Ht; rewrite andb_false_r.
    destruct lat as [a|]; apply enrich_falsy; eauto 6. }
  split.
  { intros a b -> -> Hout; unfold listing_prox, sanitize.
    destruct (truthy (Some a) && truthy (Some b)) eqn:T;
      [|apply andb_false_iff in T as [T|T]; apply truthy_false in T; apply enrich_falsy; eauto 6].
    destruct (lt_bool 33 (Qabs a) && lt_bool (Qabs a) 43 && lt_bool 18 (Qabs b) &&
              lt_bool (Qabs b) 31) eqn:B; [|reflexivity].
    exfalso; apply Hout.
    apply andb_true_iff in B as [B B4]; apply andb_true_iff in B as [B B3];
      apply andb_true_iff in B as [B1 B2].
    apply lt_bool_true in B1, B2, B3, B4; repeat split; assumption. }
  split.
  { intros a b -> -> Ha1 Ha2 Hb1 Hb2.
    assert (Hs : sanitize (Some a) (Some b) = (Some (Qabs a), Some (Qabs b))).
    { unfold sanitize.
      replace (truthy (Some a)) with true.
      2:{ symmetry; apply not_false_iff_true; rewrite truthy_false; intros E.
          rewrite E in Ha1; vm_compute in Ha1; discriminate. }
      replace (truthy (Some b)) with true.
      2:{ symmetry; apply not_false_iff_true; rewrite truthy_false; intros E.
          rewrite E in Hb1; vm_compute in Hb1; discriminate. }
      apply lt_bool_true in Ha1, Ha2, Hb1, Hb2; rewrite Ha1, Ha2, Hb1, Hb2; reflexivity. }
    unfold listing_prox; rewrite Hs.
    rewrite enrich_truthy by lra.
    split.
    - intros p.
      destruct (nearest_airport _ _ _ _) as [ra|ea]; simpl;
        [|split; [discriminate | intros (? & ? & ? & ? & _); discriminate]].
      destruct (nearest_beach _ _ _ _) as [rb|eb]; simpl;
        [|split; [discriminate | intros (? & ? & ? & _ & ? & _); discriminate]].
      destruct (nearest_city _ _ _ _) as [rc|ec]; simpl;
        [|split; [discriminate | intros (? & ? & ? & _ & _ & ? & _); discriminate]].
      split.
      + intros [= <-]; exists ra, rb, rc; repeat split.
      + intros (ra' & rb' & rc' & [= <-] & [= <-] & [= <-] & ->); reflexivity.
    - destruct (nearest_airport _ _ _ _) as [ra|ea]; simpl;
        [|split; [intros _; left; exists ea; reflexivity | intros _; exists ea; reflexivity]].
      destruct (nearest_beach _ _ _ _) as [rb|eb]; simpl;
        [|split; [intros _; right; left; exists eb; reflexivity | intros _; exists eb; reflexivity]].
      destruct (nearest_city _ _ _ _) as [rc|ec]; simpl;
        [|split; [intros _; right; right; exists ec; reflexivity | intros _; exists ec; reflexivity]].
      split; [intros [e E]; discriminate|].
      intros [[e E] | [[e E] | [e E]]]; discriminate. }
  split.
  - intros p; unfold listing_prox.
    destruct (sanitize lat lng) as [[a|] [b|]]; simpl;
      try (intros [= <-]; left; reflexivity).
    destruct (negb (Qeq_bool a 0) && negb (Qeq_bool b 0));
      [|intros [= <-]; left; reflexivity].
    destruct (nearest_airport haversine_km airports a b) as [ra|] eqn:Ea; simpl; [|discriminate].
    destruct (nearest_beach haversine_km beaches a b) as [rb|] eqn:Eb; simpl; [|discriminate].
    destruct (nearest_city haversine_km cities a b) as [rc|] eqn:Ec; simpl; [|discriminate].
    intros Hp; right; exists a, b, ra, rb, rc; repeat split; try assumption.
    destruct ra as [[[ac an] am] ay], rb as [[[[[bn bla] bln] bkm] bmin] burl], rc as [[cn cp] cm].
    injection Hp as <-; reflexivity.
  - intros a b ra rc Hs Ha Hb -> Ea Ec.
    unfold listing_prox; rewrite Hs.
    rewrite enrich_truthy by assumption.
    rewrite Ea, Ec; reflexivity.
Qed.

(** Three listings of the same tables: one with a zero longitude, one whose
    flipped coordinates fall in the Aegean outside the box, and one inside
    the box with an empty airport table, which raises. *)
Lemma listing_prox_defaults_or_lookups_witness :
  listing_prox approx_km [ATH] [Kalamaki] [Athens] (Some (379364 # 10000)) (Some 0) =
    Ok default_prox /\
  listing_prox approx_km [ATH] [Kalamaki] [Athens] (Some (-(38 # 1))) (Some (-(32 # 1))) =
    Ok default_prox /\
  listing_prox approx_km [] [Kalamaki] [Athens] (Some (-(38 # 1))) (Some (24 # 1)) =
    Err TypeError /\
  (forall p, listing_prox approx_km [ATH] [Kalamaki] [Athens] (Some (-(38 # 1))) (Some (24 # 1)) =
     Ok p <->
     exists ra rb rc,
       nearest_airport approx_km [ATH] 38 24 = Ok ra /\
       nearest_beach approx_km [Kalamaki] 38 24 = Ok rb /\
       nearest_city approx_km [Athens] 38 24 = Ok rc /\
       p = mk_prox ra rb rc).
Proof.
  assert (H0 : (0 : Q) == 0) by reflexivity.
  assert (Hout : ~ (33 < Qabs (-(38 # 1)) /\ Qabs (-(38 # 1)) < 43 /\
                    18 < Qabs (-(32 # 1)) /\ Qabs (-(32 # 1)) < 31))
    by (intros (_ & _ & _ & H); vm_compute in H; discriminate).
  assert (B1 : 33 < Qabs (-(38 # 1))) by (vm_compute; reflexivity).
  assert (B2 : Qabs (-(38 # 1)) < 43) by (vm_compute; reflexivity).
  assert (B3 : 18 < Qabs (24 # 1)) by (vm_compute; reflexivity).
  assert (B4 : Qabs (24 # 1) < 31) by (vm_compute; reflexivity).
  split.
  { destruct (listing_prox_defaults_or_lookups approx_km [ATH] [Kalamaki] [Athens]
                (Some (379364 # 10000)) (Some 0)) as (_ & _ & _ & H & _).
    exact (H 0 eq_refl H0). }
  split.
  { destruct (listing_prox_defaults_or_lookups approx_km [ATH] [Kalamaki] [Athens]
                (Some (-(38 # 1))) (Some (-(32 # 1)))) as (_ & _ & _ & _ & H & _).
    exact (H _ _ eq_refl eq_refl Hout). }
  split.
  { destruct (listing_prox_defaults_or_lookups approx_km [] [Kalamaki] [Athens]
                (Some (-(38 # 1))) (Some (24 # 1))) as (_ & _ & _ & _ & _ & H & _).
    destruct (H _ _ eq_refl eq_refl B1 B2 B3 B4) as [_ [_ HE]].
    destruct (HE (or_introl (ex_intro _ TypeError eq_refl))) as [e Ee].
    rewrite Ee; f_equal.
    assert (Ea : nearest_airport approx_km [] 38 24 = Err TypeError) by reflexivity.
    vm_compute in Ee; congruence. }
  destruct (listing_prox_defaults_or_lookups approx_km [ATH] [Kalamaki] [Athens]
              (Some (-(38 # 1))) (Some (24 # 1))) as (_ & _ & _ & _ & _ & H & _).
  exact (proj1 (H _ _ eq_refl eq_refl B1 B2 B3 B4)).
Defined.

(** *** Income and yield (C9) *)

Lemma round_half_even_close (y : Q) :
  -(1 # 2) <= inject_Z (round_half_even y) - y /\ inject_Z (round_half_even y) - y <= 1 # 2.
Proof.
  unfold round_half_even.
  pose proof (Qfloor_le y) as H0; pose proof (Qlt_floor y) as H1.
  rewrite inject_Z_plus in H1.
  set (f := Qfloor y) in *.
  assert (Hf1 : inject_Z (f + 1) = inject_Z f + 1) by (rewrite inject_Z_plus; reflexivity).
  change (inject_Z 1) with 1 in H1.
  destruct (Qle_bool (1 # 2) (y - inject_Z f)) eqn:E1; cbn [negb].
  - apply Qle_bool_iff in E1.
    destruct (Qle_bool (y - inject_Z f) (1 # 2)) eqn:E2; cbn [negb].
    + apply Qle_bool_iff in E2.
      destruct (Z.even f); rewrite ?Hf1; split; lra.
    + apply Qle_bool_false_lt' in E2.
      rewrite Hf1; split; lra.
  - apply Qle_bool_false_lt' in E1. split; lra.
Qed.

Lemma round1_close (x : Q) : -(1 # 20) <= round1 x - x /\ round1 x - x <= 1 # 20.
Proof.
  unfold round1.
  destruct (round_half_even_close (x * 10)) as [H0 H1].
  split; qlra.
Qed.

(** Binary64 rounding *)

Lemma Q2_pos (e : Z) : 0 < 2 ^ e.
Proof. apply Qpower_0_lt; lra. Qed.

Lemma Qpow2_Z (a : Z) : (0 <= a)%Z -> inject_Z (2 ^ a) == 2 ^ a.
Proof. intros H; rewrite Zpower_Qpower by exact H; reflexivity. Qed.

Lemma fl_ilog2_spec (x : Q) : 0 < x ->
  2 ^ fl_ilog2 x <= x /\ x < 2 ^ (fl_ilog2 x + 1).
Proof.
  intros Hx. destruct x as [n d].
  assert (Hn : (0 < n)%Z).
  { unfold Qlt in Hx; simpl in Hx; lia. }
  unfold fl_ilog2; cbn [Qnum Qden].
  set (a := Z.log2 n); set (b := Z.log2 (Zpos d)).
  destruct (Z.log2_spec n Hn) as [Na1 Na2]; fold a in Na1, Na2.
  destruct (Z.log2_spec (Zpos d) eq_refl) as [Nb1 Nb2]; fold b in Nb1, Nb2.
  assert (Ha : (0 <= a)%Z) by apply Z.log2_nonneg.
  assert (Hb : (0 <= b)%Z) by apply Z.log2_nonneg.
  set (A := 2 ^ a); set (B := 2 ^ b).
  assert (HA : 0 < A) by apply Q2_pos. assert (HB : 0 < B) by apply Q2_pos.
  assert (QN1 : A <= inject_Z n)
    by (unfold A; rewrite <- Qpow2_Z by exact Ha; rewrite <- Zle_Qle; exact Na1).
  assert (QN2 : inject_Z n < 2 * A).
  { unfold A; rewrite <- Qpow2_Z by exact Ha.
    replace (2 * inject_Z (2 ^ a)) with (inject_Z (2 ^ Z.succ a))
      by (rewrite Z.pow_succ_r by exact Ha; rewrite inject_Z_mult; reflexivity).
    rewrite <- Zlt_Qlt; exact Na2. }
  assert (QD1 : B <= inject_Z (Zpos d))
    by (unfold B; rewrite <- Qpow2_Z by exact Hb; rewrite <- Zle_Qle; exact Nb1).
  assert (QD2 : inject_Z (Zpos d) < 2 * B).
  { unfold B; rewrite <- Qpow2_Z by exact Hb.
    replace (2 * inject_Z (2 ^ b)) with (inject_Z (2 ^ Z.succ b))
      by (rewrite Z.pow_succ_r by exact Hb; rewrite inject_Z_mult; reflexivity).
    rewrite <- Zlt_Qlt; exact Nb2. }
  assert (Hx' : n # d == inject_Z n / inject_Z (Zpos d))
    by (unfold Qdiv, Qeq; simpl; lia).
  assert (P0 : 2 ^ (a - b) == A / B).
  { unfold A, B, Qdiv; rewrite <- Qpower_opp, <- Qpower_plus by discriminate; reflexivity. }
  assert (P1 : 2 ^ (a - b - 1) == A / B / 2).
  { replace (a - b - 1)%Z with ((a - b) + (-1))%Z by lia.
    rewrite Qpower_plus by discriminate; rewrite P0; reflexivity. }
  assert (P2 : 2 ^ (a - b + 1) == A / B * 2).
  { rewrite Qpower_plus by discriminate; rewrite P0; reflexivity. }
  assert (Lo : A / B / 2 <= n # d).
  { rewrite Hx'. apply Qle_shift_div_l; [lra|].
    setoid_replace (A / B / 2 * inject_Z (Zpos d)) with (A * (inject_Z (Zpos d) / (2 * B)))
      by (field; repeat split; intro; lra).
    apply Qle_trans with (A * 1); [|lra].
    apply Qmult_le_l; [exact HA|].
    apply Qle_shift_div_r; lra. }
  assert (Hi : n # d < A / B * 2).
  { rewrite Hx'. apply Qlt_shift_div_r; [lra|].
    setoid_replace (A / B * 2 * inject_Z (Zpos d)) with (2 * A * (inject_Z (Zpos d) / B))
      by (field; repeat split; intro; lra).
    apply Qlt_le_trans with (2 * A * 1); [lra|].
    apply Qmult_le_l; [lra|].
    apply Qle_shift_div_l; lra. }
  destruct (Qle_bool (2 ^ (a - b)) (n # d)) eqn:E.
  - apply Qle_bool_iff in E. split; [exact E|]. rewrite P2; exact Hi.
  - assert (E' : n # d < 2 ^ (a - b)).
    { apply Qnot_le_lt; intros H; apply Qle_bool_iff in H; congruence. }
    split; [rewrite P1; exact Lo|].
    replace (a - b - 1 + 1)%Z with (a - b)%Z by lia; exact E'.
Qed.

Lemma round_half_even_ge_floor (t : Q) : (Qfloor t <= round_half_even t)%Z.
Proof.
  unfold round_half_even.
  destruct (negb _); [lia|]. destruct (negb _); [lia|]. destruct (Z.even _); lia.
Qed.

Lemma round_half_even_nearest (t : Q) (j : Z) :
  Qabs (inject_Z (round_half_even t) - t) <= Qabs (inject_Z j - t).
Proof.
  destruct (round_half_even_close t) as [H0 H1].
  set (k := round_half_even t) in *.
  destruct (Z.lt_total j k) as [Hj | [-> | Hj]].
  - assert (inject_Z j + 1 <= inject_Z k).
    { change 1 with (inject_Z 1); rewrite <- inject_Z_plus, <- Zle_Qle; lia. }
    apply Qabs_case; intros; apply Qabs_case; intros; lra.
  - apply Qle_refl.
  - assert (inject_Z k + 1 <= inject_Z j).
    { change 1 with (inject_Z 1); rewrite <- inject_Z_plus, <- Zle_Qle; lia. }
    apply Qabs_case; intros; apply Qabs_case; intros; lra.
Qed.

Lemma round_half_even_tie (t : Q) :
  Qabs (inject_Z (round_half_even t) - t) == 1 # 2 -> Z.even (round_half_even t) = true.
Proof.
  pose proof (Qfloor_le t) as H0; pose proof (Qlt_floor t) as H1.
  rewrite inject_Z_plus in H1; change (inject_Z 1) with 1 in H1.
  assert (Hf1 : inject_Z (Qfloor t + 1) = inject_Z (Qfloor t) + 1)
    by (rewrite inject_Z_plus; reflexivity).
  unfold round_half_even.
  destruct (Qle_bool (1 # 2) (t - inject_Z (Qfloor t))) eqn:E1; cbn [negb].
  - apply Qle_bool_iff in E1.
    destruct (Qle_bool (t - inject_Z (Qfloor t)) (1 # 2)) eqn:E2; cbn [negb].
    + destruct (Z.even (Qfloor t)) eqn:Ev; [intros; exact Ev|].
      intros _. rewrite Z.even_add, Ev; reflexivity.
    + apply Qle_bool_false_lt' in E2. rewrite Hf1.
      apply Qabs_case; intros; lra.
  - apply Qle_bool_false_lt' in E1. apply Qabs_case; intros; lra.
Qed.

(** Error of [fl]: half a unit of the binade, so a relative 2^-53 for
    normal numbers. *)

Lemma fl_pos_err (x : Q) : Qabs (fl_pos x - x) <= 2 ^ fl_exp x / 2.
Proof.
  unfold fl_pos.
  set (P := 2 ^ fl_exp x).
  assert (HP : 0 < P) by apply Q2_pos.
  destruct (round_half_even_close (x / P)) as [H0 H1].
  set (k := inject_Z (round_half_even (x / P))) in *.
  assert (E : k * P - x == (k - x / P) * P) by (field; intro; lra).
  rewrite E, Qabs_Qmult, (Qabs_pos P) by lra.
  assert (Qabs (k - x / P) <= 1 # 2) by (apply Qabs_case; intros; lra).
  setoid_replace (P / 2) with ((1 # 2) * P) by (field).
  apply Qmult_le_compat_r; lra.
Qed.

Lemma fl_pos_rel (x : Q) : 2 ^ (-1022) <= x -> Qabs (fl_pos x - x) <= x * 2 ^ (-53).
Proof.
  intros Hx.
  assert (H1022 : 0 < 2 ^ (-1022)) by apply Q2_pos.
  eapply Qle_trans; [apply fl_pos_err|].
  destruct (fl_ilog2_spec x) as [L _]; [lra|].
  unfold fl_exp.
  destruct (Z.max_spec (fl_ilog2 x - 52) (-1074)) as [[Hm ->] | [Hm ->]].
  - setoid_replace (2 ^ (-1074) / 2) with (2 ^ (-1022) * 2 ^ (-53)) by (vm_compute; reflexivity).
    apply Qmult_le_compat_r; [lra | apply Qlt_le_weak, Q2_pos].
  - setoid_replace (2 ^ (fl_ilog2 x - 52) / 2) with (2 ^ fl_ilog2 x * 2 ^ (-53)).
    + apply Qmult_le_compat_r; [lra | apply Qlt_le_weak, Q2_pos].
    + replace (fl_ilog2 x - 52)%Z with (fl_ilog2 x + (-53) + 1)%Z by lia.
      rewrite !Qpower_plus by discriminate. field.
Qed.

Lemma fl_pos_eq (x : Q) : 0 < x -> fl x = fl_pos x.
Proof.
  destruct x as [[|p|p] d]; unfold Qlt; simpl; intros H; try lia; reflexivity.
Qed.

Lemma fl_zero (x : Q) : x == 0 -> fl x = 0.
Proof.
  destruct x as [[|p|p] d]; unfold Qeq; simpl; intros H; try lia; reflexivity.
Qed.

Lemma fl_rel (x : Q) : 2 ^ (-1022) <= Qabs x -> Qabs (fl x - x) <= Qabs x * 2 ^ (-53).
Proof.
  destruct x as [[|p|p] d]; intros H.
  - vm_compute in H; exfalso; apply H; reflexivity.
  - apply fl_pos_rel, H.
  - unfold fl; cbn [Qnum].
    change (Qabs (Z.neg p # d)) with (Zpos p # d) in *.
    change (- (Z.neg p # d)) with (Zpos p # d).
    setoid_replace (- fl_pos (Z.pos p # d) - (Z.neg p # d)) with (- (fl_pos (Z.pos p # d) - (Z.pos p # d)))
      by (setoid_replace (Z.neg p # d) with (- (Z.pos p # d)) by reflexivity; ring).
    rewrite Qabs_opp; apply fl_pos_rel, H.
Qed.

Lemma fl_pos_ge_int (x : Q) (m : Z) :
  0 < x -> (0 <= m <= 2 ^ 53)%Z -> inject_Z m <= x -> inject_Z m <= fl_pos x.
Proof.
  intros Hx Hm Hmx.
  unfold fl_pos; set (e := fl_exp x); set (P := 2 ^ e).
  assert (HP : 0 < P) by apply Q2_pos.
  pose proof (round_half_even_ge_floor (x / P)) as Hr.
  set (k := round_half_even (x / P)) in *.
  destruct (Z.le_gt_cases e 0) as [He | He].
  - (* the grid is at least as fine as the integers *)
    set (c := (2 ^ (- e))%Z).
    assert (Hc : inject_Z c * P == 1).
    { unfold c, P; rewrite Qpow2_Z by lia. rewrite <- Qpower_plus by discriminate.
      replace (- e + e)%Z with 0%Z by lia; reflexivity. }
    assert (H1 : (m * c <= Qfloor (x / P))%Z).
    { apply Qfloor_ge_inject. rewrite inject_Z_mult.
      apply Qle_shift_div_l; [exact HP|].
      setoid_replace (inject_Z m * inject_Z c * P) with (inject_Z m) by
        (rewrite <- Qmult_assoc, Hc; ring).
      exact Hmx. }
    assert (H2 : inject_Z (m * c) <= inject_Z k) by (rewrite <- Zle_Qle; lia).
    rewrite inject_Z_mult in H2.
    setoid_replace (inject_Z m) with (inject_Z m * inject_Z c * P)
      by (rewrite <- Qmult_assoc, Hc; ring).
    apply Qmult_le_compat_r; lra.
  - (* a coarser grid only occurs above 2^53 *)
    assert (Ee : e = (fl_ilog2 x - 52)%Z).
    { unfold e, fl_exp in *; lia. }
    destruct (fl_ilog2_spec x Hx) as [L _].
    assert (HQ : 2 ^ 52 * P == 2 ^ fl_ilog2 x).
    { unfold P; rewrite Ee, <- Qpower_plus by discriminate. f_equiv; lia. }
    assert (H1 : (2 ^ 52 <= Qfloor (x / P))%Z).
    { apply Qfloor_ge_inject. rewrite Qpow2_Z by lia.
      apply Qle_shift_div_l; [exact HP|]. rewrite HQ; exact L. }
    assert (H2 : 2 ^ 52 <= inject_Z k)
      by (rewrite <- Qpow2_Z by lia; rewrite <- Zle_Qle; lia).
    assert (H3 : 2 <= P).
    { change 2 with (2 ^ 1) at 1. apply Qpower_le_compat_l; [lia | lra]. }
    assert (H4 : inject_Z m <= 2 ^ 53).
    { rewrite <- Qpow2_Z by lia; rewrite <- Zle_Qle; lia. }
    setoid_replace (2 ^ 53) with (2 ^ 52 * 2) in H4 by (vm_compute; reflexivity).
    assert (H5 : 2 ^ 52 * 2 <= inject_Z k * P).
    { apply Qle_trans with (inject_Z k * 2).
      - apply Qmult_le_compat_r; lra.
      - apply Qmult_le_l; [pose proof (Q2_pos 52); lra | exact H3]. }
    lra.
Qed.

Lemma fl_income (n : Z) : (0 <= n < 2 ^ 45)%Z ->
  py_int (fl (inject_Z n / 100)) = Qfloor (inject_Z n / 100).
Proof.
  intros Hn.
  destruct (Z.eq_dec n 0) as [-> | Hn0]; [reflexivity|].
  replace (2 ^ 45)%Z with 35184372088832%Z in Hn by reflexivity.
  set (x := inject_Z n / 100).
  assert (Ex : x * 100 == inject_Z n) by (unfold x; field).
  assert (Hn1 : 1 <= inject_Z n) by (change 1 with (inject_Z 1); rewrite <- Zle_Qle; lia).
  assert (Hn2 : inject_Z n < 35184372088832)
    by (change 35184372088832 with (inject_Z 35184372088832); rewrite <- Zlt_Qlt; lia).
  assert (Hx : 1 # 100 <= x) by lra.
  assert (Hx2 : x < 35184372088832 # 100) by lra.
  rewrite fl_pos_eq by lra.
  set (m := Qfloor x).
  pose proof (Qfloor_le x) as F0; pose proof (Qlt_floor x) as F1; fold m in F0, F1.
  rewrite inject_Z_plus in F1; change (inject_Z 1) with 1 in F1.
  assert (Hm0 : (0 <= m)%Z) by (apply Qfloor_ge_inject; change (inject_Z 0) with 0; lra).
  assert (Hm53 : (m <= 2 ^ 53)%Z).
  { assert (inject_Z m < inject_Z (2 ^ 53)) by (change (inject_Z (2 ^ 53)) with 9007199254740992; lra).
    rewrite <- Zlt_Qlt in H; lia. }
  assert (Lo : inject_Z m <= fl_pos x) by (apply fl_pos_ge_int; [lra | lia | exact F0]).
  assert (Hup : x <= inject_Z m + (99 # 100)).
  { assert (inject_Z n < inject_Z (100 * (m + 1))).
    { rewrite inject_Z_mult, inject_Z_plus.
      change (inject_Z 100) with 100; change (inject_Z 1) with 1; lra. }
    rewrite <- Zlt_Qlt in H.
    assert (inject_Z n <= inject_Z (100 * m + 99)) by (rewrite <- Zle_Qle; lia).
    rewrite inject_Z_plus, inject_Z_mult in H0.
    change (inject_Z 100) with 100 in H0; change (inject_Z 99) with 99 in H0.
    lra. }
  pose proof (fl_pos_rel x) as Er.
  setoid_replace (2 ^ (-53)) with (1 # 9007199254740992) in Er by (vm_compute; reflexivity).
  assert (H1022 : 2 ^ (-1022) <= 1 # 100) by (vm_compute; discriminate).
  specialize (Er ltac:(lra)).
  apply Qabs_Qle_condition in Er as [_ Er].
  rewrite py_int_nonneg by (pose proof (Qfloor_ge_inject 0 x); change (inject_Z 0) with 0 in *;
                            assert (0 <= inject_Z m) by (change 0 with (inject_Z 0); rewrite <- Zle_Qle; lia); lra).
  apply Z.le_antisymm.
  - assert (inject_Z (Qfloor (fl_pos x)) < inject_Z (m + 1)).
    { rewrite inject_Z_plus; change (inject_Z 1) with 1.
      pose proof (Qfloor_le (fl_pos x)). lra. }
    rewrite <- Zlt_Qlt in H; lia.
  - apply Qfloor_ge_inject, Lo.
Qed.

Lemma fl_two_steps (x : Q) : 2 ^ (-1022) <= Qabs x ->
  Qabs (fl (fl x * 100) - x * 100) <= Qabs (x * 100) * 2 ^ (-51).
Proof.
  intros Hx.
  assert (HT : 0 < 2 ^ (-1022)) by apply Q2_pos.
  pose proof (fl_rel x Hx) as H1.
  set (q := fl x) in *.
  setoid_replace (2 ^ (-53)) with (1 # 9007199254740992) in H1 by (vm_compute; reflexivity).
  apply Qabs_Qle_condition in H1 as [H1a H1b].
  assert (Hq : 2 ^ (-1022) <= Qabs (q * 100)).
  { rewrite Qabs_Qmult. change (Qabs 100) with 100.
    revert Hx H1a H1b; apply Qabs_case; intros Hs Hx H1a H1b;
      apply Qabs_case; intros; lra. }
  pose proof (fl_rel (q * 100) Hq) as H2.
  set (v := fl (q * 100)) in *.
  setoid_replace (2 ^ (-53)) with (1 # 9007199254740992) in H2 by (vm_compute; reflexivity).
  setoid_replace (2 ^ (-51)) with (1 # 2251799813685248) by (vm_compute; reflexivity).
  apply Qabs_Qle_condition in H2 as [H2a H2b].
  rewrite !Qabs_Qmult in *. change (Qabs 100) with 100 in *.
  apply Qabs_Qle_condition.
  revert Hx H1a H1b H2a H2b; apply Qabs_case; intros Hs Hx H1a H1b;
    apply Qabs_case; intros; split; lra.
Qed.

(** The claim fails on [generate_site]: at rate 51 and occupancy 41 the
    income is 7632, not 51 * 365 * 0.41 = 7632.15; and with the price
    absent or zero the yield is the number 0. *)
Lemma site_yield_truncates_and_zero :
  fst (SiteYield.site_yield (Some 100000) 51 41) = 7632%Z /\
  ~ inject_Z (fst (SiteYield.site_yield (Some 100000) 51 41)) == 51 * 365 * (41 # 100) /\
  snd (SiteYield.site_yield None 50 40) = 0 /\
  snd (SiteYield.site_yield (Some 0) 50 40) = 0.
Proof.
  split; [vm_compute; reflexivity|].
  split; [vm_compute; discriminate|].
  split; reflexivity.
Qed.

Lemma Qabs_tenth (a v : Q) : Qabs (a / 10 - v) == Qabs (a - v * 10) * (1 # 10).
Proof.
  setoid_replace (a / 10 - v) with ((a - v * 10) * (1 # 10)) by field.
  rewrite Qabs_Qmult; reflexivity.
Qed.

(** C9, as the code does it, for a non-negative nightly rate and occupancy
    percentage whose product [rate * 365 * occ] is below 2^45:
    - the annual income is [rate * 365 * occ / 100] truncated to an
      integer (the division is a float division, which for such products
      does not move the integer part);
    - when the price is non-zero, the gross yield is a one-decimal number
      [k / 10] nearest to [v], the double computed for
      [income / price * 100], with an even [k] on a tie; for a price of
      magnitude at most 2^53, [v] is within a relative 2^-51 of the exact
      quotient;
    - when the price is zero or absent, the gross yield is the number 0. *)
Theorem site_yield_spec (p_price : option Q) (rate occ : Z) :
  (0 <= rate)%Z -> (0 <= occ)%Z -> (rate * 365 * occ < 2 ^ 45)%Z ->
  let inc := fst (SiteYield.site_yield p_price rate occ) in
  let y := snd (SiteYield.site_yield p_price rate occ) in
  inc = Qfloor (inject_Z (rate * 365 * occ) / 100) /\
  inject_Z inc <= inject_Z (rate * 365 * occ) / 100 /\
  inject_Z (rate * 365 * occ) / 100 < inject_Z inc + 1 /\
  (forall pr, p_price = Some pr -> ~ pr == 0 ->
     let v := fl (fl (inject_Z inc / pr) * 100) in
     (exists k : Z, y = inject_Z k / 10 /\
        (forall j : Z, Qabs (y - v) <= Qabs (inject_Z j / 10 - v)) /\
        (Qabs (y - v) == 1 # 20 -> Z.even k = true)) /\
     (Qabs pr <= inject_Z (2 ^ 53) ->
        Qabs (v - inject_Z inc / pr * 100) <= Qabs (inject_Z inc / pr * 100) * 2 ^ (-51))) /\
  (p_price = None -> y = 0) /\
  (forall pr, p_price = Some pr -> pr == 0 -> y = 0).
Proof.
  intros Hr Ho Hb; cbn zeta.
  assert (Hn : (0 <= rate * 365 * occ)%Z) by nia.
  assert (Hinc : fst (SiteYield.site_yield p_price rate occ) =
                 Qfloor (inject_Z (rate * 365 * occ) / 100))
    by (unfold SiteYield.site_yield; cbn zeta; simpl fst; apply fl_income; lia).
  split; [exact Hinc|].
  pose proof (Qfloor_le (inject_Z (rate * 365 * occ) / 100)) as F0.
  pose proof (Qlt_floor (inject_Z (rate * 365 * occ) / 100)) as F1.
  rewrite inject_Z_plus in F1; change (inject_Z 1) with 1 in F1.
  rewrite Hinc.
  split; [exact F0|].
  split; [exact F1|].
  assert (Hi0 : (0 <= Qfloor (inject_Z (rate * 365 * occ) / 100))%Z).
  { apply Qfloor_ge_inject; change (inject_Z 0) with 0.
    assert (0 <= inject_Z (rate * 365 * occ))
      by (change 0 with (inject_Z 0); rewrite <- Zle_Qle; exact Hn).
    qlra. }
  rewrite <- Hinc in Hi0 |- *.
  set (inc := fst (SiteYield.site_yield p_price rate occ)) in *.
  split; [|split].
  - intros pr -> Hpr.
    assert (Ey : snd (SiteYield.site_yield (Some pr) rate occ) =
                 round1 (fl (fl (inject_Z inc / pr) * 100))).
    { unfold inc, SiteYield.site_yield; cbn zeta; simpl snd; simpl fst.
      replace (Qeq_bool pr 0) with false
        by (symmetry; apply not_true_iff_false; intros E; apply Qeq_bool_iff in E; contradiction).
      reflexivity. }
    rewrite Ey; clear Ey.
    set (v := fl (fl (inject_Z inc / pr) * 100)).
    split.
    + exists (round_half_even (v * 10)); split; [reflexivity|].
      unfold round1; split.
      * intros j; rewrite !Qabs_tenth.
        apply Qmult_le_compat_r; [apply round_half_even_nearest | discriminate].
      * rewrite Qabs_tenth; intros Ht; apply round_half_even_tie.
        setoid_replace (1 # 2) with ((1 # 20) * 10) by reflexivity.
        rewrite <- Ht; field.
    + intros Hpr53.
      set (x := inject_Z inc / pr).
      destruct (Z.eq_dec inc 0) as [E0 | E0].
      * assert (Hx0 : x == 0) by (unfold x; rewrite E0; field; exact Hpr).
        unfold v; fold x; rewrite (fl_zero x Hx0).
        setoid_replace (x * 100) with 0 by (rewrite Hx0; reflexivity).
        vm_compute; discriminate.
      * unfold v; apply fl_two_steps.
        assert (Hxp : Qabs x * Qabs pr == inject_Z inc).
        { rewrite <- Qabs_Qmult.
          setoid_replace (x * pr) with (inject_Z inc) by (unfold x; field; exact Hpr).
          apply Qabs_pos; change 0 with (inject_Z 0); rewrite <- Zle_Qle; exact Hi0. }
        assert (H1 : 1 <= inject_Z inc)
          by (change 1 with (inject_Z 1); rewrite <- Zle_Qle; lia).
        change (inject_Z (2 ^ 53)) with 9007199254740992 in Hpr53.
        assert (H2 : Qabs x * Qabs pr <= Qabs x * 9007199254740992).
        { rewrite !(Qmult_comm (Qabs x)).
          apply Qmult_le_compat_r; [exact Hpr53 | apply Qabs_nonneg]. }
        assert (HT : 2 ^ (-1022) <= 1 # 9007199254740992) by (vm_compute; discriminate).
        lra.
  - intros ->; reflexivity.
  - intros pr -> Hpr. unfold SiteYield.site_yield; cbn zeta; simpl snd.
    replace (Qeq_bool pr 0) with true by (symmetry; apply Qeq_bool_iff, Hpr).
    reflexivity.
Qed.

(** At income 6132 and price 56000 the exact quotient is 10.95, but the
    double computed for it lies just below, and the page shows 10.9. *)
Lemma site_yield_spec_witness :
  ((0 <= 42)%Z /\ (0 <= 40)%Z /\ (42 * 365 * 40 < 2 ^ 45)%Z) /\
  SiteYield.site_yield (Some 56000) 42 40 = (6132%Z, 109 # 10) /\
  inject_Z 6132 / 56000 * 100 == 1095 # 100 /\
  fst (SiteYield.site_yield (Some 56000) 42 40) = Qfloor (inject_Z (42 * 365 * 40) / 100) /\
  exists k : Z, snd (SiteYield.site_yield (Some 56000) 42 40) = inject_Z k / 10 /\
    (forall j : Z, Qabs (snd (SiteYield.site_yield (Some 56000) 42 40) -
                         fl (fl (inject_Z 6132 / 56000) * 100)) <=
                   Qabs (inject_Z j / 10 - fl (fl (inject_Z 6132 / 56000) * 100))).
Proof.
  assert (H1 : (0 <= 42)%Z) by lia.
  assert (H2 : (0 <= 40)%Z) by lia.
  assert (H3 : (42 * 365 * 40 < 2 ^ 45)%Z) by (vm_compute; reflexivity).
  split; [repeat split; assumption|].
  split; [vm_compute; reflexivity|].
  split; [reflexivity|].
  destruct (site_yield_spec (Some 56000) 42 40 H1 H2 H3) as (Hi & _ & _ & Hy & _).
  split; [exact Hi|].
  destruct (Hy 56000 eq_refl ltac:(discriminate)) as [(k & Ek & Hk & _) _].
  exists k; split; [exact Ek|].
  replace (fst (SiteYield.site_yield (Some 56000) 42 40)) with 6132%Z in Hk
    by (vm_compute; reflexivity).
  exact Hk.
Defined.

(** *** Airbnb estimate (C10) *)

(** C10: [beds = bedrooms or 1] sends a studio (0), an unknown count
    ([None]) and one bedroom to the same estimate. *)
Theorem estimate_airbnb_studio_unknown_one (price_eur : Z) (region : string)
  (beach_min city_min : Z) :
  estimate_airbnb price_eur region (Some 0%Z) beach_min city_min =
    estimate_airbnb price_eur region None beach_min city_min /\
  estimate_airbnb price_eur region (Some 1%Z) beach_min city_min =
    estimate_airbnb price_eur region None beach_min city_min.
Proof. split; reflexivity. Qed.

End ScraperProofs.

(** * Further properties of the lookups and the scraper pipeline *)
Module LookupProofs.
Import Py Scraper ScraperFixtures ScraperProofs.

(** The scan either keeps its start (every distance at least the start
    bound) or ends on an element strictly closer than the start, strictly
    closer than every element before it and no farther than every element
    after it. *)
Lemma scan_spec {A} (dist : A -> Q) (xs : list A) (best : option A) (bk : Q) :
  let '(b', k') := scan dist xs best bk in
  (b' = best /\ k' = bk /\ forall y, In y xs -> bk <= dist y) \/
  (exists pre x post, xs = pre ++ x :: post /\ b' = Some x /\ k' = dist x /\
     dist x < bk /\ (forall y, In y pre -> dist x < dist y) /\
     (forall y, In y post -> dist x <= dist y)).
Proof.
  revert best bk; induction xs as [|x t IH]; intros best bk; simpl.
  - left; repeat split; intros y [].
  - destruct (lt_bool (dist x) bk) eqn:E.
    + apply lt_bool_true in E.
      specialize (IH (Some x) (dist x)); destruct (scan dist t (Some x) (dist x)) as [b' k'].
      right.
      destruct IH as [(-> & -> & Hall) | (pre & z & post & -> & -> & -> & Hz & Hpre & Hpost)].
      * exists [], x, t; repeat split; auto. intros y [].
      * exists (x :: pre), z, post; repeat split; auto; [lra|].
        intros y [<- | Hy]; [exact Hz | apply Hpre, Hy].
    + apply lt_bool_false in E.
      specialize (IH best bk); destruct (scan dist t best bk) as [b' k'].
      destruct IH as [(-> & -> & Hall) | (pre & z & post & -> & -> & -> & Hz & Hpre & Hpost)].
      * left; repeat split; intros y [<- | Hy]; [exact E | apply Hall, Hy].
      * right; exists (x :: pre), z, post; repeat split; auto.
        intros y [<- | Hy]; [lra | apply Hpre, Hy].
Qed.

Lemma scan_none {A} (dist : A -> Q) (xs : list A) (bk : Q) :
  fst (scan dist xs None bk) = None <-> (forall y, In y xs -> bk <= dist y).
Proof.
  pose proof (scan_spec dist xs None bk) as H.
  destruct (scan dist xs None bk) as [b' k']; simpl.
  destruct H as [(-> & -> & Hall) | (pre & x & post & -> & -> & -> & Hx & _ & _)].
  - split; [intros _; exact Hall | reflexivity].
  - split; [discriminate|].
    intros Hall; specialize (Hall x (in_elt _ _ _)); lra.
Qed.

(** [nearest_airport] returns an airport of the table at the least
    distance from the query (below 9999 km), the first such one in table
    order, and the drive estimate of that distance. *)
Theorem nearest_airport_spec (haversine_km : Q -> Q -> Q -> Q -> Q)
  (airports : list airport_ref) (lat lng : Q) (c n : string) (m : Z) (yr : bool) :
  nearest_airport haversine_km airports lat lng = Ok (c, n, m, yr) ->
  exists pre a post, airports = pre ++ a :: post /\
    acode a = c /\ aname a = n /\ year_round a = yr /\
    let km := haversine_km lat lng (alat a) (alng a) in
    km < 9999 /\ m = airport_drive_min km /\
    (forall b, In b pre -> km < haversine_km lat lng (alat b) (alng b)) /\
    (forall b, In b post -> km <= haversine_km lat lng (alat b) (alng b)).
Proof.
  unfold nearest_airport.
  pose proof (scan_spec (fun a => haversine_km lat lng (alat a) (alng a)) airports None 9999) as H.
  destruct (scan _ airports None 9999) as [b' k'].
  destruct H as [(-> & -> & _) | (pre & a & post & -> & -> & -> & Ha & Hpre & Hpost)];
    [discriminate|].
  intros [= <- <- <- <-].
  exists pre, a, post; repeat split; auto.
Qed.

(** Near Heraklion, the middle airport of [ATH; HER; CHQ] is returned:
    Athens before it is strictly farther, Chania after it no nearer. *)
Lemma nearest_airport_spec_witness :
  nearest_airport approx_km [ATH; HER; CHQ] (353387 # 10000) (251442 # 10000) =
    Ok ("HER"%string, "Heraklion (HER)"%string,
        airport_drive_min (approx_km (353387 # 10000) (251442 # 10000) (alat HER) (alng HER)), true) /\
  exists pre a post, [ATH; HER; CHQ] = pre ++ a :: post /\ pre = [ATH] /\ a = HER /\ post = [CHQ] /\
    let km := approx_km (353387 # 10000) (251442 # 10000) (alat a) (alng a) in
    km < 9999 /\
    (forall b, In b pre -> km < approx_km (353387 # 10000) (251442 # 10000) (alat b) (alng b)) /\
    (forall b, In b post -> km <= approx_km (353387 # 10000) (251442 # 10000) (alat b) (alng b)).
Proof.
  assert (E : nearest_airport approx_km [ATH; HER; CHQ] (353387 # 10000) (251442 # 10000) =
    Ok ("HER"%string, "Heraklion (HER)"%string,
        airport_drive_min (approx_km (353387 # 10000) (251442 # 10000) (alat HER) (alng HER)), true))
    by (vm_compute; reflexivity).
  split; [exact E|].
  destruct (nearest_airport_spec approx_km [ATH; HER; CHQ] _ _ _ _ _ _ E)
    as (pre & a & post & Hs & Hc & _ & _ & Hk & _ & Hpre & Hpost).
  destruct pre as [|x [|y [|z pre]]]; simpl in Hs.
  - injection Hs as <- _; vm_compute in Hc; discriminate.
  - injection Hs as <- <- <-.
    exists [ATH], HER, [CHQ]; repeat split; try reflexivity; assumption.
  - injection Hs as <- <- <- _; vm_compute in Hc; discriminate.
  - injection Hs as _ _ _ Hs; destruct pre; discriminate.
Defined.

(** [nearest_city] returns a city of the table at the least distance
    (below 9999 km), the first such one in table order, with its population
    and a drive estimate of at least 5 minutes. *)
Theorem nearest_city_spec (haversine_km : Q -> Q -> Q -> Q -> Q)
  (cities : list city_ref) (lat lng : Q) (n : string) (pp m : Z) :
  nearest_city haversine_km cities lat lng = Ok (n, pp, m) ->
  exists pre c post, cities = pre ++ c :: post /\ cname c = n /\ pop c = pp /\
    let km := haversine_km lat lng (clat c) (clng c) in
    km < 9999 /\ m = city_drive_min km /\ (5 <= m)%Z /\
    (forall b, In b pre -> km < haversine_km lat lng (clat b) (clng b)) /\
    (forall b, In b post -> km <= haversine_km lat lng (clat b) (clng b)).
Proof.
  unfold nearest_city.
  pose proof (scan_spec (fun c => haversine_km lat lng (clat c) (clng c)) cities None 9999) as H.
  destruct (scan _ cities None 9999) as [b' k'].
  destruct H as [(-> & -> & _) | (pre & c & post & -> & -> & -> & Hc & Hpre & Hpost)];
    [discriminate|].
  intros [= <- <- <-].
  exists pre, c, post; repeat split; auto.
  unfold city_drive_min; lia.
Qed.

(** From Heraklion airport, the middle city of [Athens; Heraklion; Chania]
    is returned. *)
Lemma nearest_city_spec_witness :
  nearest_city approx_km [Athens; Heraklion; Chania] (353397 # 10000) (251803 # 10000) =
    Ok ("Heraklion"%string, 175000%Z,
        city_drive_min (approx_km (353397 # 10000) (251803 # 10000) (clat Heraklion) (clng Heraklion))) /\
  exists pre c post, [Athens; Heraklion; Chania] = pre ++ c :: post /\
    pre = [Athens] /\ c = Heraklion /\ post = [Chania] /\
    let km := approx_km (353397 # 10000) (251803 # 10000) (clat c) (clng c) in
    km < 9999 /\
    (5 <= city_drive_min (approx_km (353397 # 10000) (251803 # 10000) (clat Heraklion) (clng Heraklion)))%Z /\
    (forall b, In b pre -> km < approx_km (353397 # 10000) (251803 # 10000) (clat b) (clng b)) /\
    (forall b, In b post -> km <= approx_km (353397 # 10000) (251803 # 10000) (clat b) (clng b)).
Proof.
  assert (E : nearest_city approx_km [Athens; Heraklion; Chania] (353397 # 10000) (251803 # 10000) =
    Ok ("Heraklion"%string, 175000%Z,
        city_drive_min (approx_km (353397 # 10000) (251803 # 10000) (clat Heraklion) (clng Heraklion))))
    by (vm_compute; reflexivity).
  split; [exact E|].
  destruct (nearest_city_spec approx_km [Athens; Heraklion; Chania] _ _ _ _ _ E)
    as (pre & c & post & Hs & Hc & _ & Hk & _ & H5 & Hpre & Hpost).
  destruct pre as [|x [|y [|z pre]]]; simpl in Hs.
  - injection Hs as <- _; vm_compute in Hc; discriminate.
  - injection Hs as <- <- <-.
    exists [Athens], Heraklion, [Chania]; repeat split; try reflexivity; assumption.
  - injection Hs as <- <- <- _; vm_compute in Hc; discriminate.
  - injection Hs as _ _ _ Hs; destruct pre; discriminate.
Defined.

(** For a non-empty beach set, [nearest_beach] returns a beach of the set
    at the least distance (below 9999 km), the first such one in set
    order; the name is never empty ("Beach" for an unnamed beach); the
    reported distance is within 0.05 km of the true one; the drive
    estimate lies in [2, 180]; and the link gives directions from the query
    point to that beach. *)
Theorem nearest_beach_spec (haversine_km : Q -> Q -> Q -> Q -> Q)
  (beaches : list beach_ref) (lat lng : Q) (nm : string) (bla bln km' : Q) (m : Z) (u : url) :
  nearest_beach haversine_km beaches lat lng = Ok (nm, bla, bln, km', m, u) ->
  beaches <> [] ->
  exists pre b post, beaches = pre ++ b :: post /\ blat b = bla /\ blng b = bln /\
    nm <> ""%string /\ (bname b <> ""%string -> nm = bname b) /\
    u = DirUrl lat lng bla bln /\ (2 <= m <= 180)%Z /\
    let km := haversine_km lat lng (blat b) (blng b) in
    km < 9999 /\ -(1 # 20) <= km' - km /\ km' - km <= 1 # 20 /\
    (forall c, In c pre -> km < haversine_km lat lng (blat c) (blng c)) /\
    (forall c, In c post -> km <= haversine_km lat lng (blat c) (blng c)).
Proof.
  intros Hr Hne; revert Hr; unfold nearest_beach.
  destruct beaches as [|b0 bs]; [contradiction|].
  pose proof (scan_spec (fun b => haversine_km lat lng (blat b) (blng b)) (b0 :: bs) None 9999) as H.
  destruct (scan _ (b0 :: bs) None 9999) as [b' k'].
  destruct H as [(-> & -> & _) | (pre & b & post & Heq & -> & -> & Hb & Hpre & Hpost)];
    [discriminate|].
  intros [= <- <- <- <- <- <-].
  exists pre, b, post; split; [exact Heq|].
  split; [reflexivity|]. split; [reflexivity|].
  split; [destruct (String.eqb_spec (bname b) ""); [discriminate | assumption]|].
  split; [intros Hn; destruct (String.eqb_spec (bname b) ""); [contradiction | reflexivity]|].
  split; [reflexivity|].
  split; [unfold beach_drive_min; destruct (lt_bool _ (1 # 2)); [lia|];
          destruct (lt_bool _ 2); lia|].
  split; [exact Hb|].
  destruct (round1_close (haversine_km lat lng (blat b) (blng b))).
  repeat split; assumption.
Qed.

(** From Heraklion airport, the middle beach of
    [Falasarna; Karteros; Amoudara] is returned; it has no name, so it is
    reported as "Beach", 2.2 km away. *)
Lemma nearest_beach_spec_witness :
  nearest_beach approx_km [Falasarna; Karteros; Amoudara] (353397 # 10000) (251803 # 10000) =
    Ok ("Beach"%string, 35335 # 1000, 25195 # 1000, 22 # 10, 5%Z,
        DirUrl (353397 # 10000) (251803 # 10000) (35335 # 1000) (25195 # 1000)) /\
  [Falasarna; Karteros; Amoudara] <> [] /\
  exists pre b post, [Falasarna; Karteros; Amoudara] = pre ++ b :: post /\
    pre = [Falasarna] /\ b = Karteros /\ post = [Amoudara] /\
    let km := approx_km (353397 # 10000) (251803 # 10000) (blat b) (blng b) in
    km < 9999 /\ -(1 # 20) <= (22 # 10) - km /\ (22 # 10) - km <= 1 # 20 /\
    (forall c, In c pre -> km < approx_km (353397 # 10000) (251803 # 10000) (blat c) (blng c)) /\
    (forall c, In c post -> km <= approx_km (353397 # 10000) (251803 # 10000) (blat c) (blng c)).
Proof.
  assert (E : nearest_beach approx_km [Falasarna; Karteros; Amoudara] (353397 # 10000) (251803 # 10000) =
    Ok ("Beach"%string, 35335 # 1000, 25195 # 1000, 22 # 10, 5%Z,
        DirUrl (353397 # 10000) (251803 # 10000) (35335 # 1000) (25195 # 1000)))
    by (vm_compute; reflexivity).
  assert (Hne : [Falasarna; Karteros; Amoudara] <> []) by discriminate.
  split; [exact E|]. split; [exact Hne|].
  destruct (nearest_beach_spec approx_km _ _ _ _ _ _ _ _ _ E Hne)
    as (pre & b & post & Hs & Hla & _ & _ & _ & _ & _ & Hk & Hl & Hr & Hpre & Hpost).
  destruct pre as [|x [|y [|z pre]]]; simpl in Hs.
  - injection Hs as <- _; vm_compute in Hla; discriminate.
  - injection Hs as <- <- <-.
    exists [Falasarna], Karteros, [Amoudara]; repeat split; try reflexivity; assumption.
  - injection Hs as <- <- <- _; vm_compute in Hla; discriminate.
  - injection Hs as _ _ _ Hs; destruct pre; discriminate.
Defined.

(** A lookup fails exactly when no reference point is closer than
    9999 km; for beaches this holds for a non-empty set, the empty set
    giving the sentinel result. *)
Theorem lookup_fails_iff_all_far (haversine_km : Q -> Q -> Q -> Q -> Q)
  (airports : list airport_ref) (beaches : list beach_ref) (cities : list city_ref) (lat lng : Q) :
  ((exists e, nearest_airport haversine_km airports lat lng = Err e) <->
     (forall a, In a airports -> 9999 <= haversine_km lat lng (alat a) (alng a))) /\
  ((exists e, nearest_city haversine_km cities lat lng = Err e) <->
     (forall c, In c cities -> 9999 <= haversine_km lat lng (clat c) (clng c))) /\
  (beaches <> [] ->
   ((exists e, nearest_beach haversine_km beaches lat lng = Err e) <->
     (forall b, In b beaches -> 9999 <= haversine_km lat lng (blat b) (blng b)))).
Proof.
  split; [|split].
  - rewrite <- scan_none; unfold nearest_airport.
    destruct (scan _ airports None 9999) as [[a|] k]; simpl;
      split; intros H; try discriminate; try (destruct H; discriminate); eauto.
  - rewrite <- scan_none; unfold nearest_city.
    destruct (scan _ cities None 9999) as [[c|] k]; simpl;
      split; intros H; try discriminate; try (destruct H; discriminate); eauto.
  - intros Hne; rewrite <- scan_none; unfold nearest_beach.
    destruct beaches as [|b0 bs]; [contradiction|].
    destruct (scan _ (b0 :: bs) None 9999) as [[b|] k]; simpl;
      split; intros H; try discriminate; try (destruct H; discriminate); eauto.
Qed.

(** *** Coordinates *)

Lemma Qabs_opp_eq (a : Q) : Qabs (- a) = Qabs a.
Proof. destruct a as [n d]; unfold Qabs, Qopp; simpl; rewrite Z.abs_opp; reflexivity. Qed.

Lemma listing_prox_opp_lat (haversine_km : Q -> Q -> Q -> Q -> Q)
  (airports : list airport_ref) (beaches : list beach_ref) (cities : list city_ref)
  (lat lng : option Q) :
  listing_prox haversine_km airports beaches cities (option_map Qopp lat) lng =
  listing_prox haversine_km airports beaches cities lat lng.
Proof.
  destruct lat as [a|]; [|reflexivity].
  destruct lng as [b|]; [|reflexivity].
  unfold listing_prox, sanitize; cbn [option_map].
  assert (Ht : truthy (Some (- a)) = truthy (Some a))
    by (unfold truthy; rewrite Qeq_bool_opp_0; reflexivity).
  rewrite Ht, Qabs_opp_eq.
  destruct (truthy (Some a) && truthy (Some b)) eqn:T; [reflexivity|].
  unfold enrich; rewrite Ht, T; reflexivity.
Qed.

Lemma listing_prox_opp_lng (haversine_km : Q -> Q -> Q -> Q -> Q)
  (airports : list airport_ref) (beaches : list beach_ref) (cities : list city_ref)
  (lat lng : option Q) :
  listing_prox haversine_km airports beaches cities lat (option_map Qopp lng) =
  listing_prox haversine_km airports beaches cities lat lng.
Proof.
  destruct lng as [b|]; [|reflexivity].
  destruct lat as [a|]; [|reflexivity].
  unfold listing_prox, sanitize; cbn [option_map].
  assert (Ht : truthy (Some (- b)) = truthy (Some b))
    by (unfold truthy; rewrite Qeq_bool_opp_0; reflexivity).
  rewrite Ht, Qabs_opp_eq.
  destruct (truthy (Some a) && truthy (Some b)) eqn:T; [reflexivity|].
  unfold enrich; rewrite Ht, T; reflexivity.
Qed.

(** [scrape_rightmove_overseas] takes the absolute values of truthy
    coordinates before the box test and the lookups, and a zero coordinate
    is falsy whatever its sign: a listing whose latitude, longitude or
    both are given with the opposite sign gets exactly the same proximity
    fields, or fails in the same way. *)
Theorem listing_prox_sign_invariant (haversine_km : Q -> Q -> Q -> Q -> Q)
  (airports : list airport_ref) (beaches : list beach_ref) (cities : list city_ref)
  (lat lng : option Q) :
  listing_prox haversine_km airports beaches cities (option_map Qopp lat) lng =
    listing_prox haversine_km airports beaches cities lat lng /\
  listing_prox haversine_km airports beaches cities lat (option_map Qopp lng) =
    listing_prox haversine_km airports beaches cities lat lng /\
  listing_prox haversine_km airports beaches cities (option_map Qopp lat) (option_map Qopp lng) =
    listing_prox haversine_km airports beaches cities lat lng.
Proof.
  split; [apply listing_prox_opp_lat|].
  split; [apply listing_prox_opp_lng|].
  rewrite listing_prox_opp_lat; apply listing_prox_opp_lng.
Qed.

Theorem sanitize_kept_in_box (lat lng : option Q) (a b : Q) :
  sanitize lat lng = (Some a, Some b) -> ~ a == 0 -> ~ b == 0 ->
  33 < a /\ a < 43 /\ 18 < b /\ b < 31.
Proof.
  unfold sanitize.
  destruct lat as [x|], lng as [y|]; try (intros [= -> ->]; discriminate); try discriminate.
  destruct (truthy (Some x) && truthy (Some y)) eqn:T.
  - destruct (lt_bool 33 (Qabs x) && lt_bool (Qabs x) 43 && lt_bool 18 (Qabs y) &&
              lt_bool (Qabs y) 31) eqn:B; [|discriminate].
    intros [= <- <-] _ _.
    apply andb_true_iff in B as [B B4]; apply andb_true_iff in B as [B B3];
      apply andb_true_iff in B as [B1 B2].
    apply lt_bool_true in B1, B2, B3, B4. repeat split; assumption.
  - intros [= -> ->] Ha Hb; exfalso.
    unfold truthy in T.
    replace (Qeq_bool a 0) with false in T
      by (symmetry; apply not_true_iff_false; intros E; apply Qeq_bool_iff in E; contradiction).
    replace (Qeq_bool b 0) with false in T
      by (symmetry; apply not_true_iff_false; intros E; apply Qeq_bool_iff in E; contradiction).
    discriminate.
Qed.

Lemma sanitize_kept_in_box_witness :
  (sanitize (Some (-(379 # 10))) (Some (237 # 10)) = (Some (379 # 10), Some (237 # 10)) /\
   ~ (379 # 10) == 0 /\ ~ (237 # 10) == 0) /\
  (33 < 379 # 10 /\ 379 # 10 < 43 /\ 18 < 237 # 10 /\ 237 # 10 < 31).
Proof.
  assert (E : sanitize (Some (-(379 # 10))) (Some (237 # 10)) = (Some (379 # 10), Some (237 # 10)))
    by reflexivity.
  assert (Ha : ~ (379 # 10) == 0) by discriminate.
  assert (Hb : ~ (237 # 10) == 0) by discriminate.
  split; [repeat split; assumption|].
  exact (sanitize_kept_in_box _ _ _ _ E Ha Hb).
Defined.

(** *** Airbnb estimate *)

Ltac split_estimate :=
  unfold estimate_airbnb, or_int;
  repeat match goal with
         | |- context [if ?c then _ else _] => destruct c eqn:?
         end;
  repeat match goal with
         | H : Z.leb _ _ = true |- _ => apply Z.leb_le in H
         | H : Z.leb _ _ = false |- _ => apply Z.leb_gt in H
         | H : Z.eqb _ _ = true |- _ => apply Z.eqb_eq in H
         | H : Z.eqb _ _ = false |- _ => apply Z.eqb_neq in H
         end;
  cbv beta iota zeta; cbn [fst snd].

(** The estimated occupancy always lies between 35 and 70 percent. *)
Theorem estimate_airbnb_occupancy_range (price_eur : Z) (region : string) (bedrooms : option Z)
  (beach_min city_min : Z) :
  (35 <= snd (estimate_airbnb price_eur region bedrooms beach_min city_min) <= 70)%Z.
Proof. destruct bedrooms; split_estimate; lia. Qed.

(** The nightly rate grows with the bedroom count (from one bedroom up)
    and the occupancy does not depend on it; a closer beach never lowers
    the rate or the occupancy; a closer city never lowers the occupancy
    and leaves the rate unchanged. *)
Theorem estimate_airbnb_monotone (price_eur : Z) (region : string) (beach_min city_min : Z) :
  (forall b1 b2, (1 <= b1)%Z -> (b1 < b2)%Z ->
     (fst (estimate_airbnb price_eur region (Some b1) beach_min city_min) <
      fst (estimate_airbnb price_eur region (Some b2) beach_min city_min))%Z /\
     snd (estimate_airbnb price_eur region (Some b1) beach_min city_min) =
     snd (estimate_airbnb price_eur region (Some b2) beach_min city_min)) /\
  (forall beds m1 m2, (m1 <= m2)%Z ->
     (fst (estimate_airbnb price_eur region beds m2 city_min) <=
      fst (estimate_airbnb price_eur region beds m1 city_min))%Z /\
     (snd (estimate_airbnb price_eur region beds m2 city_min) <=
      snd (estimate_airbnb price_eur region beds m1 city_min))%Z) /\
  (forall beds c1 c2, (c1 <= c2)%Z ->
     fst (estimate_airbnb price_eur region beds beach_min c2) =
     fst (estimate_airbnb price_eur region beds beach_min c1) /\
     (snd (estimate_airbnb price_eur region beds beach_min c2) <=
      snd (estimate_airbnb price_eur region beds beach_min c1))%Z).
Proof.
  split; [|split].
  - intros b1 b2 H1 H2; split_estimate; split; try lia.
  - intros [beds|] m1 m2 H; split_estimate; split; lia.
  - intros [beds|] c1 c2 H; split_estimate; split; lia.
Qed.

Lemma estimate_airbnb_monotone_witness :
  ((1 <= 1)%Z /\ (1 < 2)%Z) /\
  (fst (estimate_airbnb 80000 "crete" (Some 1%Z) 15 30) <
   fst (estimate_airbnb 80000 "crete" (Some 2%Z) 15 30))%Z.
Proof.
  split; [split; lia|].
  apply (proj1 (estimate_airbnb_monotone 80000 "crete" 15 30)); lia.
Defined.

End LookupProofs.

(** ** Stable insertion sort *)
Module SortProofs.
Import StableSort.

Section Generic.
Context {A : Type} (before : A -> A -> bool).
Hypothesis before_total : forall a b, before a b = true \/ before b a = true.
Hypothesis before_trans : forall a b c, before a b = true -> before b c = true -> before a c = true.

Lemma insert_by_perm (x : A) (l : list A) : Permutation (insert_by before x l) (x :: l).
Proof.
  induction l as [|y ys IH]; simpl; [reflexivity|].
  destruct (before x y); [reflexivity|].
  eapply perm_trans; [apply perm_skip, IH | apply perm_swap].
Qed.

Lemma sort_by_perm (l : list A) : Permutation (sort_by before l) l.
Proof.
  induction l as [|x xs IH]; simpl; [reflexivity|].
  eapply perm_trans; [apply insert_by_perm | apply perm_skip, IH].
Qed.

Lemma insert_by_sorted (x : A) (l : list A) :
  StronglySorted (fun a b => before a b = true) l ->
  StronglySorted (fun a b => before a b = true) (insert_by before x l).
Proof.
  induction l as [|y ys IH]; simpl; intros Hs.
  - repeat constructor.
  - apply StronglySorted_inv in Hs as [Hys Hall].
    destruct (before x y) eqn:E.
    + constructor; [constructor; assumption|].
      constructor; [exact E|].
      eapply Forall_impl; [|exact Hall]. intros z Hz; eapply before_trans; eassumption.
    + constructor; [apply IH, Hys|].
      apply Forall_forall; intros z Hz.
      apply (Permutation_in _ (insert_by_perm x ys)) in Hz as [<- | Hz].
      * destruct (before_total x y) as [H|H]; [congruence | exact H].
      * exact (proj1 (Forall_forall _ _) Hall z Hz).
Qed.

Lemma sort_by_sorted (l : list A) :
  StronglySorted (fun a b => before a b = true) (sort_by before l).
Proof.
  induction l as [|x xs IH]; simpl; [constructor|].
  apply insert_by_sorted, IH.
Qed.

Lemma insert_by_head (x : A) (l : list A) :
  (forall z, In z l -> before x z = true) -> insert_by before x l = x :: l.
Proof.
  destruct l as [|y ys]; simpl; intros H; [reflexivity|].
  rewrite (H y (or_introl eq_refl)); reflexivity.
Qed.

Lemma filter_insert_by (P : A -> bool) (x : A) (L : list A) :
  StronglySorted (fun a b => before a b = true) L ->
  filter P (insert_by before x L) =
  if P x then insert_by before x (filter P L) else filter P L.
Proof.
  induction L as [|y ys IH]; intros Hs.
  - simpl; destruct (P x); reflexivity.
  - apply StronglySorted_inv in Hs as [Hys Hall].
    simpl insert_by.
    destruct (before x y) eqn:E.
    + simpl filter.
      destruct (P x) eqn:Px, (P y) eqn:Py; simpl; try rewrite E; try reflexivity.
      symmetry; apply insert_by_head.
      intros z Hz; apply filter_In in Hz as [Hz _].
      eapply before_trans; [exact E | exact (proj1 (Forall_forall _ _) Hall z Hz)].
    + simpl filter; rewrite IH by exact Hys.
      destruct (P x) eqn:Px, (P y) eqn:Py; simpl; try rewrite E; reflexivity.
Qed.

Lemma sort_by_filter (P : A -> bool) (l : list A) :
  sort_by before (filter P l) = filter P (sort_by before l).
Proof.
  induction l as [|x xs IH]; simpl; [reflexivity|].
  rewrite filter_insert_by by apply sort_by_sorted.
  destruct (P x); simpl; rewrite IH; reflexivity.
Qed.

Lemma sort_by_id (l : list A) :
  (forall a b, In a l -> In b l -> before a b = true) -> sort_by before l = l.
Proof.
  induction l as [|x xs IH]; simpl; intros H; [reflexivity|].
  rewrite IH by (intros a b Ha Hb; apply H; right; assumption).
  apply insert_by_head; intros z Hz; apply H; [left; reflexivity | right; exact Hz].
Qed.

(** Elements that the order cannot tell apart keep their input order. *)
Lemma sort_by_stable (P : A -> bool) (l : list A) :
  (forall a b, P a = true -> P b = true -> before a b = true) ->
  filter P (sort_by before l) = filter P l.
Proof.
  intros HP; rewrite <- sort_by_filter.
  apply sort_by_id; intros a b Ha Hb.
  apply filter_In in Ha as [_ Ha]; apply filter_In in Hb as [_ Hb]; auto.
Qed.

End Generic.

Lemma StronglySorted_impl {A} (R S : A -> A -> Prop) (l : list A) :
  (forall a b, R a b -> S a b) -> StronglySorted R l -> StronglySorted S l.
Proof.
  intros H; induction l as [|x xs IH]; intros Hs; [constructor|].
  apply StronglySorted_inv in Hs as [Hxs Hall].
  constructor; [apply IH, Hxs|].
  eapply Forall_impl; [|exact Hall]; auto.
Qed.

(** [filter P l] starting with [h]: [h] is the first element of [l]
    satisfying [P]. *)
Lemma filter_cons_split {A} (P : A -> bool) (l : list A) (h : A) (t : list A) :
  filter P l = h :: t ->
  exists pre post, l = pre ++ h :: post /\ (forall e, In e pre -> P e = false).
Proof.
  revert t; induction l as [|x xs IH]; simpl; intros t E; [discriminate|].
  destruct (P x) eqn:Px.
  - injection E as <- _. exists [], xs; split; [reflexivity | intros e []].
  - destruct (IH t E) as (pre & post & -> & Hpre).
    exists (x :: pre), post; split; [reflexivity|].
    intros e [<- | He]; [exact Px | apply Hpre, He].
Qed.

End SortProofs.

(** ** Page views: hero, formula display, Airbnb ranking *)
Module SiteViewProofs.
Import Site SiteViews StableSort SiteFixtures SiteProofs SortProofs.

(** [rebuild]: for a non-empty catalog the hero exists; it is a scored
    listing of the catalog, no listing scores higher, and it is the first
    listing of the catalog with the top score (every earlier listing scores
    strictly less). *)
Theorem hero_spec (w : weights) (DATA : list item) :
  DATA <> [] ->
  exists h, hero w DATA = Some h /\
    In (ent_item h) DATA /\ sc h = score w (normalize DATA (ent_item h)) /\
    (forall e, In e (score_all w DATA) -> sc e <= sc h) /\
    exists pre post, score_all w DATA = pre ++ h :: post /\
      (forall e, In e pre -> sc e < sc h).
Proof.
  intros Hne.
  set (L := score_all w DATA).
  assert (HL : L <> []).
  { unfold L, score_all, normalize_all. destruct DATA; [congruence | discriminate]. }
  unfold hero; fold L.
  destruct (sort_desc L) as [|h t] eqn:ES.
  { exfalso; apply HL, Permutation_nil; rewrite <- ES; apply sort_desc_perm. }
  assert (Hin : forall e, In e (h :: t) <-> In e L).
  { intros e; rewrite <- ES; split; apply Permutation_in;
      [apply sort_desc_perm | apply Permutation_sym, sort_desc_perm]. }
  assert (Hmax : forall e, In e L -> sc e <= sc h).
  { intros e He; apply Hin in He as [<- | He]; [apply Qle_refl|].
    pose proof (sort_desc_sorted L) as Hs; rewrite ES in Hs.
    apply StronglySorted_inv in Hs as [_ Hall].
    exact (proj1 (Forall_forall _ _) Hall e He). }
  assert (HhL : In h L) by (apply Hin; left; reflexivity).
  exists h; split; [reflexivity|].
  split.
  { unfold L, score_all, normalize_all in HhL; rewrite map_map in HhL.
    apply in_map_iff in HhL as (d & <- & Hd); exact Hd. }
  split; [apply score_all_sc, HhL|].
  split; [exact Hmax|].
  pose proof (sort_desc_stable (sc h) L) as Hst; rewrite ES in Hst.
  simpl in Hst; rewrite (proj2 (Qeq_bool_iff _ _) (Qeq_refl _)) in Hst.
  symmetry in Hst; apply filter_cons_split in Hst as (pre & post & Hsplit & Hpre).
  exists pre, post; split; [exact Hsplit|].
  intros e He.
  assert (HeL : In e L) by (rewrite Hsplit; apply in_or_app; left; exact He).
  destruct (Qle_lt_or_eq _ _ (Hmax e HeL)) as [Hlt | Heq]; [exact Hlt|].
  exfalso; pose proof (Hpre e He) as Hf.
  rewrite (proj2 (Qeq_bool_iff _ _) Heq) in Hf; discriminate.
Qed.

Lemma hero_spec_witness :
  sample_catalog <> [] /\
  exists h, hero sample_weights sample_catalog = Some h /\
    In (ent_item h) sample_catalog /\
    sc h = score sample_weights (normalize sample_catalog (ent_item h)) /\
    (forall e, In e (score_all sample_weights sample_catalog) -> sc e <= sc h) /\
    exists pre post, score_all sample_weights sample_catalog = pre ++ h :: post /\
      (forall e, In e pre -> sc e < sc h).
Proof.
  assert (H : sample_catalog <> []) by discriminate.
  split; [exact H | apply (hero_spec sample_weights sample_catalog H)].
Defined.

Lemma inject_Z_sub (a b : Z) : inject_Z (a - b) = inject_Z a - inject_Z b.
Proof.
  change (a - b)%Z with (a + - b)%Z; rewrite inject_Z_plus, inject_Z_opp; reflexivity.
Qed.

Lemma math_round_bounds (x : Q) : x - (1 # 2) < inject_Z (math_round x) /\ inject_Z (math_round x) <= x + (1 # 2).
Proof.
  unfold math_round; split.
  - pose proof (Qlt_floor (x + (1 # 2))) as H.
    rewrite inject_Z_plus in H; change (inject_Z 1) with 1 in H; lra.
  - apply Qfloor_le.
Qed.

(** [updateFromSliders]: with a non-zero weight sum, the six percentage
    labels next to the sliders add up to between 98 and 103, since each is
    its exact share rounded by [Math.round] and the shares add up to 100;
    both ends occur (weights 41, 41, 41, 41, 41, 45 give 98; weights
    1, 1, 1, 1, 1, 3 give 103).  The correction [diff] that [rebuild] adds
    to the first percentage of the formula display is therefore between -3
    and 2. *)
Theorem slider_pcts_sum_range (w : weights) :
  ~ weight_sum w == 0 ->
  (98 <= fold_left Z.add (slider_pcts w) 0 <= 103)%Z.
Proof.
  intros Hs.
  assert (Ht : total w = weight_sum w).
  { unfold total. destruct (Qeq_bool (weight_sum w) 0) eqn:E; [|reflexivity].
    apply Qeq_bool_iff in E; contradiction. }
  set (share x := x / weight_sum w * 100).
  assert (Hsum : share (wPrice w) + share (wAirport w) + share (wBeach w) + share (wSize w) +
                 share (wYield w) + share (wReno w) == 100).
  { unfold share. unfold weight_sum in *. field. exact Hs. }
  unfold slider_pcts, weight_list; rewrite Ht; cbn [map fold_left].
  fold (share (wPrice w)) (share (wAirport w)) (share (wBeach w)) (share (wSize w))
       (share (wYield w)) (share (wReno w)).
  pose proof (math_round_bounds (share (wPrice w))) as B0.
  pose proof (math_round_bounds (share (wAirport w))) as B1.
  pose proof (math_round_bounds (share (wBeach w))) as B2.
  pose proof (math_round_bounds (share (wSize w))) as B3.
  pose proof (math_round_bounds (share (wYield w))) as B4.
  pose proof (math_round_bounds (share (wReno w))) as B5.
  set (S := (0 + math_round (share (wPrice w)) + math_round (share (wAirport w)) +
             math_round (share (wBeach w)) + math_round (share (wSize w)) +
             math_round (share (wYield w)) + math_round (share (wReno w)))%Z).
  assert (HS : inject_Z S == inject_Z (math_round (share (wPrice w))) +
                 inject_Z (math_round (share (wAirport w))) +
                 inject_Z (math_round (share (wBeach w))) +
                 inject_Z (math_round (share (wSize w))) +
                 inject_Z (math_round (share (wYield w))) +
                 inject_Z (math_round (share (wReno w)))).
  { unfold S; rewrite !inject_Z_plus; change (inject_Z 0) with 0; ring. }
  assert (L : inject_Z 97 < inject_Z S) by (change (inject_Z 97) with 97; lra).
  assert (U : inject_Z S <= inject_Z 103) by (change (inject_Z 103) with 103; lra).
  rewrite <- Zlt_Qlt in L; rewrite <- Zle_Qle in U; lia.
Qed.

Lemma slider_pcts_sum_range_witness :
  (~ weight_sum (mkWeights 1 1 1 1 1 3) == 0 /\
   slider_pcts (mkWeights 1 1 1 1 1 3) = [13%Z; 13%Z; 13%Z; 13%Z; 13%Z; 38%Z] /\
   (98 <= fold_left Z.add (slider_pcts (mkWeights 1 1 1 1 1 3)) 0%Z <= 103)%Z) /\
  slider_pcts (mkWeights 41 41 41 41 41 45) = [16%Z; 16%Z; 16%Z; 16%Z; 16%Z; 18%Z] /\
  fold_left Z.add (slider_pcts (mkWeights 41 41 41 41 41 45)) 0%Z = 98%Z.
Proof.
  assert (H : ~ weight_sum (mkWeights 1 1 1 1 1 3) == 0) by (vm_compute; discriminate).
  split; [split; [exact H | split; [vm_compute; reflexivity|]]|].
  - exact (slider_pcts_sum_range (mkWeights 1 1 1 1 1 3) H).
  - split; vm_compute; reflexivity.
Defined.

(** With a non-zero weight sum, each of the last five percentages is the
    exact share [w / total * 100] rounded, so within 1/2 of it; the first
    one is within 5/2 of its exact share and can fall below 0 (weights
    0, 1, 1, 1, 1, 4 display -2%). *)
Theorem formula_pcts_close (w : weights) :
  ~ weight_sum w == 0 ->
  let share x := x / weight_sum w * 100 in
  exists p0 p1 p2 p3 p4 p5,
    formula_pcts w = [p0; p1; p2; p3; p4; p5] /\
    Qabs (inject_Z p0 - share (wPrice w)) <= 5 # 2 /\
    Qabs (inject_Z p1 - share (wAirport w)) <= 1 # 2 /\
    Qabs (inject_Z p2 - share (wBeach w)) <= 1 # 2 /\
    Qabs (inject_Z p3 - share (wSize w)) <= 1 # 2 /\
    Qabs (inject_Z p4 - share (wYield w)) <= 1 # 2 /\
    Qabs (inject_Z p5 - share (wReno w)) <= 1 # 2.
Proof.
  intros Hs share.
  assert (Ht : total w = weight_sum w).
  { unfold total. destruct (Qeq_bool (weight_sum w) 0) eqn:E; [|reflexivity].
    apply Qeq_bool_iff in E; contradiction. }
  assert (Hsum : share (wPrice w) + share (wAirport w) + share (wBeach w) + share (wSize w) +
                 share (wYield w) + share (wReno w) == 100).
  { unfold share. unfold weight_sum in *. field. exact Hs. }
  unfold formula_pcts, weight_list; rewrite Ht; cbn [map fold_left].
  fold (share (wPrice w)) (share (wAirport w)) (share (wBeach w)) (share (wSize w))
       (share (wYield w)) (share (wReno w)).
  set (r0 := math_round (share (wPrice w))). set (r1 := math_round (share (wAirport w))).
  set (r2 := math_round (share (wBeach w))). set (r3 := math_round (share (wSize w))).
  set (r4 := math_round (share (wYield w))). set (r5 := math_round (share (wReno w))).
  pose proof (math_round_bounds (share (wAirport w))) as B1.
  pose proof (math_round_bounds (share (wBeach w))) as B2.
  pose proof (math_round_bounds (share (wSize w))) as B3.
  pose proof (math_round_bounds (share (wYield w))) as B4.
  pose proof (math_round_bounds (share (wReno w))) as B5.
  fold r1 r2 r3 r4 r5 in B1, B2, B3, B4, B5.
  eexists _, r1, r2, r3, r4, r5; split; [reflexivity|].
  replace (r0 + (100 - (0 + r0 + r1 + r2 + r3 + r4 + r5)))%Z
    with (100 - r1 - r2 - r3 - r4 - r5)%Z by lia.
  rewrite !inject_Z_sub; change (inject_Z 100) with 100.
  repeat split; apply Qabs_case; intros; lra.
Qed.

Lemma formula_pcts_close_witness :
  ~ weight_sum (mkWeights 0 1 1 1 1 4) == 0 /\
  formula_pcts (mkWeights 0 1 1 1 1 4) = [(-2)%Z; 13%Z; 13%Z; 13%Z; 13%Z; 50%Z] /\
  let w := mkWeights 0 1 1 1 1 4 in
  let share x := x / weight_sum w * 100 in
  exists p0 p1 p2 p3 p4 p5,
    formula_pcts w = [p0; p1; p2; p3; p4; p5] /\
    Qabs (inject_Z p0 - share (wPrice w)) <= 5 # 2 /\
    Qabs (inject_Z p1 - share (wAirport w)) <= 1 # 2 /\
    Qabs (inject_Z p2 - share (wBeach w)) <= 1 # 2 /\
    Qabs (inject_Z p3 - share (wSize w)) <= 1 # 2 /\
    Qabs (inject_Z p4 - share (wYield w)) <= 1 # 2 /\
    Qabs (inject_Z p5 - share (wReno w)) <= 1 # 2.
Proof.
  assert (H : ~ weight_sum (mkWeights 0 1 1 1 1 4) == 0) by (vm_compute; discriminate).
  split; [exact H|]. split; [vm_compute; reflexivity|].
  exact (formula_pcts_close (mkWeights 0 1 1 1 1 4) H).
Defined.

(** [rebuildAirbnb]: the Airbnb list holds every listing once, in
    non-increasing gross yield, listings of equal yield in catalog order. *)
Theorem rebuild_airbnb_spec (DATA : list item) :
  Permutation (rebuild_airbnb DATA) DATA /\
  StronglySorted (fun a b => grossYield b <= grossYield a) (rebuild_airbnb DATA) /\
  (forall y, filter (fun d => Qeq_bool (grossYield d) y) (rebuild_airbnb DATA) =
             filter (fun d => Qeq_bool (grossYield d) y) DATA).
Proof.
  unfold rebuild_airbnb.
  set (bf := fun a b : item => Qle_bool (grossYield b) (grossYield a)).
  assert (Htot : forall a b, bf a b = true \/ bf b a = true).
  { intros a b; unfold bf; destruct (Qlt_le_dec (grossYield a) (grossYield b)) as [H|H].
    - right; apply Qle_bool_iff, Qlt_le_weak, H.
    - left; apply Qle_bool_iff, H. }
  assert (Htr : forall a b c, bf a b = true -> bf b c = true -> bf a c = true).
  { intros a b c; unfold bf; rewrite !Qle_bool_iff; intros; eapply Qle_trans; eassumption. }
  split; [apply sort_by_perm|]. split.
  - eapply StronglySorted_impl; [|apply (sort_by_sorted bf Htot Htr)].
    intros a b H; apply Qle_bool_iff, H.
  - intros y; apply (sort_by_stable bf Htot Htr).
    intros a b Ha Hb; apply Qeq_bool_iff in Ha, Hb; unfold bf; apply Qle_bool_iff.
    rewrite Ha, Hb; apply Qle_refl.
Qed.

End SiteViewProofs.

(** ** [classify_region] *)
Module ClassifyProofs.
Import PyStr Classify RegionInfo.

Lemma first_rule_some (addr : string) (rules : list (list string * string))
  (kws : list string) (r kw : string) :
  In (kws, r) rules -> In kw kws -> contains kw addr = true ->
  exists r', first_rule addr rules = Some r'.
Proof.
  induction rules as [|[kws' r'] rs IH]; simpl; intros Hr Hkw Hc; [contradiction|].
  destruct (existsb (fun kw0 => contains kw0 addr) kws') eqn:E; [eexists; reflexivity|].
  destruct Hr as [[= -> ->] | Hr]; [|exact (IH Hr Hkw Hc)].
  exfalso; assert (existsb (fun kw0 => contains kw0 addr) kws = true) as E'
    by (apply existsb_exists; exists kw; split; assumption).
  congruence.
Qed.

Lemma first_rule_in (addr : string) (rules : list (list string * string)) (r : string) :
  first_rule addr rules = Some r -> In r (map snd rules).
Proof.
  induction rules as [|[kws r'] rs IH]; simpl; [discriminate|].
  destruct (existsb _ kws); [intros [= <-]; left; reflexivity | intros H; right; apply IH, H].
Qed.

(** [classify_region]: as soon as the lower-cased address contains one of
    the keywords of the address tests, the coordinates play no part in
    the result. *)
Theorem classify_region_address_first (lat1 lng1 lat2 lng2 : Q) (addr : string)
  (kws : list string) (r kw : string) :
  In (kws, r) text_rules -> In kw kws -> contains kw (lower addr) = true ->
  classify_region lat1 lng1 addr = classify_region lat2 lng2 addr.
Proof.
  intros Hr Hkw Hc; unfold classify_region.
  destruct (first_rule_some _ _ _ _ _ Hr Hkw Hc) as [r' ->]; reflexivity.
Qed.

Lemma classify_region_address_first_witness :
  (In (["crete"; "chania"; "heraklion"; "rethymno"]%string, "crete"%string) text_rules /\
   In "chania"%string ["crete"; "chania"; "heraklion"; "rethymno"]%string /\
   contains "chania" (lower "Kalyves, CHANIA") = true) /\
  classify_region 41 20 "Kalyves, CHANIA" = classify_region 35 25 "Kalyves, CHANIA".
Proof.
  assert (Hr : In (["crete"; "chania"; "heraklion"; "rethymno"]%string, "crete"%string) text_rules)
    by (simpl; do 4 right; left; reflexivity).
  assert (Hkw : In "chania"%string ["crete"; "chania"; "heraklion"; "rethymno"]%string)
    by (right; left; reflexivity).
  assert (Hc : contains "chania" (lower "Kalyves, CHANIA") = true) by (vm_compute; reflexivity).
  split; [repeat split; assumption|].
  exact (classify_region_address_first 41 20 35 25 _ _ _ _ Hr Hkw Hc).
Defined.

(** Every region [classify_region] returns is a key of the [region_names]
    table of [build_region_info], so a scraped listing's region is always
    shown under its table name, never the generated fallback. *)
Theorem classify_region_named (lat lng : Q) (addr : string) :
  In (classify_region lat lng addr) (map fst region_names).
Proof.
  unfold classify_region.
  destruct (first_rule (lower addr) text_rules) as [r|] eqn:E.
  - apply first_rule_in in E; simpl in E |- *.
    repeat (destruct E as [<- | E]; [tauto|]); contradiction.
  - unfold coord_region.
    repeat match goal with |- context [if ?c then _ else _] => destruct c end;
      simpl; tauto.
Qed.

End ClassifyProofs.

(** ** [run_scraper]: de-duplication, filter and price order *)
Module PipelineProofs.
Import Py StableSort Pipeline SortProofs.

Lemma existsb_eqb_iff (k : string) (seen : list string) :
  existsb (String.eqb k) seen = true <-> In k seen.
Proof.
  rewrite existsb_exists; split.
  - intros (x & Hx & E); apply String.eqb_eq in E; subst; exact Hx.
  - intros H; exists k; split; [exact H | apply String.eqb_refl].
Qed.

Lemma dedup_from_fresh (seen : list string) (ps : list listing) (q : listing) :
  In q (dedup_from seen ps) -> ~ In (dedup_key q) seen.
Proof.
  revert seen; induction ps as [|p ps IH]; simpl; intros seen; [contradiction|].
  destruct (existsb (String.eqb (dedup_key p)) seen) eqn:E; [apply IH|].
  intros [<- | Hq].
  - intros Hin; apply existsb_eqb_iff in Hin; congruence.
  - intros Hin; apply (IH _ Hq); right; exact Hin.
Qed.

Lemma dedup_from_nodup (seen : list string) (ps : list listing) :
  NoDup (map dedup_key (dedup_from seen ps)).
Proof.
  revert seen; induction ps as [|p ps IH]; simpl; intros seen; [constructor|].
  destruct (existsb (String.eqb (dedup_key p)) seen); [apply IH|].
  simpl; constructor; [|apply IH].
  intros Hin; apply in_map_iff in Hin as (q & Hk & Hq).
  apply (dedup_from_fresh _ _ _ Hq); rewrite Hk; left; reflexivity.
Qed.

Lemma dedup_from_covers (seen : list string) (ps : list listing) (p : listing) :
  In p ps -> In (dedup_key p) seen \/
             exists q, In q (dedup_from seen ps) /\ dedup_key q = dedup_key p.
Proof.
  revert seen; induction ps as [|p' ps IH]; simpl; intros seen Hp; [contradiction|].
  destruct (existsb (String.eqb (dedup_key p')) seen) eqn:E.
  - destruct Hp as [-> | Hp]; [left; apply existsb_eqb_iff, E | apply IH, Hp].
  - destruct Hp as [-> | Hp].
    + right; exists p; split; [left|]; reflexivity.
    + destruct (IH (dedup_key p' :: seen) Hp) as [[Hk | Hk] | (q & Hq & Hk)].
      * right; exists p'; split; [left; reflexivity | exact Hk].
      * left; exact Hk.
      * right; exists q; split; [right; exact Hq | exact Hk].
Qed.

Lemma dedup_from_first (seen : list string) (ps : list listing) (q : listing) :
  In q (dedup_from seen ps) ->
  exists pre post, ps = pre ++ q :: post /\ (forall r, In r pre -> dedup_key r <> dedup_key q).
Proof.
  revert seen; induction ps as [|p ps IH]; simpl; intros seen Hq; [contradiction|].
  destruct (existsb (String.eqb (dedup_key p)) seen) eqn:E.
  - destruct (IH _ Hq) as (pre & post & -> & Hpre).
    exists (p :: pre), post; split; [reflexivity|].
    intros r [<- | Hr]; [|apply Hpre, Hr].
    intros Hk; apply (dedup_from_fresh _ _ _ Hq); rewrite <- Hk; apply existsb_eqb_iff, E.
  - destruct Hq as [<- | Hq].
    + exists [], ps; split; [reflexivity | intros r []].
    + destruct (IH _ Hq) as (pre & post & -> & Hpre).
      exists (p :: pre), post; split; [reflexivity|].
      intros r [<- | Hr]; [|apply Hpre, Hr].
      intros Hk; apply (dedup_from_fresh _ _ _ Hq); rewrite <- Hk; left; reflexivity.
Qed.

(** The first listing with a given key is unique. *)
Lemma first_occurrence_unique (ps pre1 post1 pre2 post2 : list listing) (q1 q2 : listing) :
  ps = pre1 ++ q1 :: post1 -> ps = pre2 ++ q2 :: post2 ->
  dedup_key q1 = dedup_key q2 ->
  (forall r, In r pre1 -> dedup_key r <> dedup_key q1) ->
  (forall r, In r pre2 -> dedup_key r <> dedup_key q2) ->
  q1 = q2.
Proof.
  intros -> E Hk H1 H2; revert pre2 E H2.
  induction pre1 as [|x pre1 IH]; intros [|y pre2] E H2; simpl in E; injection E as E1 E2.
  - exact E1.
  - exfalso; apply (H2 y (or_introl eq_refl)); rewrite <- E1; exact Hk.
  - exfalso; apply (H1 x (or_introl eq_refl)); rewrite E1, Hk; reflexivity.
  - apply (IH (fun r Hr => H1 r (or_intror Hr)) pre2 E2 (fun r Hr => H2 r (or_intror Hr))).
Qed.

(** [run_scraper]'s de-duplication keeps exactly one listing per key
    ([rightmove_id], or the title when the id is empty): the first one in
    scraping order. *)
Theorem dedup_spec (ps : list listing) :
  NoDup (map dedup_key (dedup ps)) /\
  (forall p, In p ps -> exists q, In q (dedup ps) /\ dedup_key q = dedup_key p) /\
  (forall q, In q (dedup ps) ->
     exists pre post, ps = pre ++ q :: post /\ (forall r, In r pre -> dedup_key r <> dedup_key q)).
Proof.
  unfold dedup; split; [apply dedup_from_nodup|]; split.
  - intros p Hp; destruct (dedup_from_covers [] ps p Hp) as [[] | H]; exact H.
  - apply dedup_from_first.
Qed.

Lemma NoDup_map_filter {A B} (f : A -> B) (P : A -> bool) (l : list A) :
  NoDup (map f l) -> NoDup (map f (filter P l)).
Proof.
  induction l as [|x xs IH]; simpl; intros H; [constructor|].
  apply NoDup_cons_iff in H as [Hx Hxs].
  destruct (P x); simpl; [|apply IH, Hxs].
  constructor; [|apply IH, Hxs].
  intros Hin; apply Hx; apply in_map_iff in Hin as (y & Hy & Hin).
  apply filter_In in Hin as [Hin _]; rewrite <- Hy; apply in_map, Hin.
Qed.

Lemma price_before_total (a b : listing) :
  Z.leb (price a) (price b) = true \/ Z.leb (price b) (price a) = true.
Proof. destruct (Z.le_ge_cases (price a) (price b)); [left | right]; apply Z.leb_le; lia. Qed.

Lemma price_before_trans (a b c : listing) :
  Z.leb (price a) (price b) = true -> Z.leb (price b) (price c) = true ->
  Z.leb (price a) (price c) = true.
Proof. rewrite !Z.leb_le; lia. Qed.

Lemma investment_properties_investable (all_properties : list listing) (p : listing) :
  In p (investment_properties all_properties) -> investable p = true.
Proof.
  intros Hp.
  apply (Permutation_in _ (sort_by_perm (fun a b => Z.leb (price a) (price b)) _)) in Hp.
  apply filter_In in Hp as [_ Hp]; exact Hp.
Qed.

(** The list [run_scraper] saves: every listing has a non-zero price within
    [MAX_EUR] and truthy coordinates; it is the de-duplicated, filtered
    scrape in ascending price order, listings of equal price in scraping
    order, with no key twice. *)
Theorem investment_properties_spec (all_properties : list listing) :
  let L := investment_properties all_properties in
  let F := filter investable (dedup all_properties) in
  (forall p, In p L ->
     price p <> 0%Z /\ (price p <= MAX_EUR)%Z /\ truthy (lat p) = true /\ truthy (lng p) = true) /\
  Permutation L F /\
  StronglySorted (fun a b => (price a <= price b)%Z) L /\
  (forall c, filter (fun p => Z.eqb (price p) c) L = filter (fun p => Z.eqb (price p) c) F) /\
  NoDup (map dedup_key L).
Proof.
  intros L F.
  assert (HP : Permutation L F) by apply (sort_by_perm (fun a b => Z.leb (price a) (price b))).
  split; [|split; [exact HP|]; split; [|split]].
  - intros p Hp; apply (Permutation_in _ HP) in Hp; apply filter_In in Hp as [_ Hp].
    unfold investable in Hp.
    apply andb_true_iff in Hp as [Hp Hlng]; apply andb_true_iff in Hp as [Hp Hlat];
      apply andb_true_iff in Hp as [Hp0 Hmax].
    apply negb_true_iff, Z.eqb_neq in Hp0; apply Z.leb_le in Hmax.
    repeat split; assumption.
  - eapply StronglySorted_impl;
      [|apply (sort_by_sorted _ price_before_total price_before_trans)].
    intros a b H; apply Z.leb_le, H.
  - intros c; apply (sort_by_stable _ price_before_total price_before_trans).
    intros a b Ha Hb; apply Z.eqb_eq in Ha, Hb; apply Z.leb_le; lia.
  - apply (Permutation_NoDup (Permutation_map dedup_key (Permutation_sym HP))).
    apply NoDup_map_filter, dedup_from_nodup.
Qed.

(** A key ends up in the saved list exactly when its first listing in
    scraping order passes the budget and coordinate filter: a later
    duplicate that would pass does not replace a first one that fails. *)
Theorem investment_key_iff_first_passes (all_properties : list listing) (k : string) :
  (exists q, In q (investment_properties all_properties) /\ dedup_key q = k) <->
  (exists pre p0 post, all_properties = pre ++ p0 :: post /\ dedup_key p0 = k /\
     (forall r, In r pre -> dedup_key r <> k) /\ investable p0 = true).
Proof.
  assert (Hcov : forall p, In p all_properties ->
                  exists q, In q (dedup all_properties) /\ dedup_key q = dedup_key p)
    by (intros p Hp; destruct (dedup_from_covers [] all_properties p Hp) as [[] | H]; exact H).
  pose proof (dedup_from_first [] all_properties) as Hfirst.
  assert (HP : Permutation (investment_properties all_properties)
                           (filter investable (dedup all_properties)))
    by apply (sort_by_perm (fun a b => Z.leb (price a) (price b))).
  split.
  - intros (q & Hq & <-).
    apply (Permutation_in _ HP), filter_In in Hq as [Hq Hinv].
    destruct (Hfirst q Hq) as (pre & post & Hs & Hpre).
    exists pre, q, post; repeat split; assumption.
  - intros (pre & p0 & post & Hs & Hk & Hpre & Hinv).
    assert (Hp0 : In p0 all_properties) by (rewrite Hs; apply in_or_app; right; left; reflexivity).
    destruct (Hcov p0 Hp0) as (q & Hq & Hkq).
    destruct (Hfirst q Hq) as (pre' & post' & Hs' & Hpre').
    assert (q = p0) as ->.
    { apply (first_occurrence_unique all_properties pre' post' pre post q p0 Hs' Hs Hkq Hpre').
      intros r Hr; rewrite Hk; apply Hpre, Hr. }
    exists p0; split; [|exact Hk].
    apply (Permutation_in _ (Permutation_sym HP)), filter_In; split; assumption.
Qed.

End PipelineProofs.

(** ** [build_region_info] *)
Module RegionProofs.
Import Py Pipeline RegionInfo PipelineFixtures ScraperProofs.

Definition group_sizes (g : list (string * list listing)) : nat :=
  fold_right Nat.add 0%nat (map (fun rh => List.length (snd rh)) g).

(** What [region_data] holds after the listings [done]. *)
Definition grouped (g : list (string * list listing)) (done : list listing) : Prop :=
  NoDup (map fst g) /\
  (forall r, In r (map fst g) <-> In r (map region done)) /\
  (forall r h, In (r, h) g -> h = filter (fun p => String.eqb (region p) r) done) /\
  group_sizes g = List.length done.

Lemma group_add_keys (r : string) (p : listing) (g : list (string * list listing)) :
  map fst (group_add r p g) =
  if existsb (String.eqb r) (map fst g) then map fst g else map fst g ++ [r].
Proof.
  induction g as [|[r' ps] g IH]; simpl; [reflexivity|].
  destruct (String.eqb r r'); simpl; [reflexivity|].
  rewrite IH; destruct (existsb (String.eqb r) (map fst g)); reflexivity.
Qed.

Lemma group_add_in (r : string) (p : listing) (g : list (string * list listing)) (r' : string)
  (h : list listing) :
  NoDup (map fst g) -> In (r', h) (group_add r p g) ->
  (r' <> r /\ In (r', h) g) \/
  (r' = r /\ ((~ In r (map fst g) /\ h = [p]) \/ exists h0, In (r, h0) g /\ h = h0 ++ [p])).
Proof.
  induction g as [|[r0 ps] g IH]; simpl; intros Hnd Hin.
  - destruct Hin as [[= -> ->] | []]. right; split; [reflexivity | left; split; [intros [] | reflexivity]].
  - apply NoDup_cons_iff in Hnd as [Hr0 Hnd].
    destruct (String.eqb_spec r r0) as [-> | Hne].
    + destruct Hin as [[= -> <-] | Hin].
      * right; split; [reflexivity | right; exists ps; split; [left | ]; reflexivity].
      * destruct (String.eqb_spec r' r0) as [-> | Hne'].
        -- exfalso; apply Hr0, (in_map fst _ _ Hin).
        -- left; split; [exact Hne' | right; exact Hin].
    + destruct Hin as [[= -> ->] | Hin].
      * left; split; [intros E; apply Hne; symmetry; exact E | left; reflexivity].
      * destruct (IH Hnd Hin) as [[H1 H2] | [H1 [[H2 H3] | (h0 & H2 & H3)]]].
        -- left; split; [exact H1 | right; exact H2].
        -- right; split; [exact H1 | left; split; [|exact H3]].
           intros [E | E]; [congruence | contradiction].
        -- right; split; [exact H1 | right; exists h0; split; [right; exact H2 | exact H3]].
Qed.

Lemma group_add_sizes (r : string) (p : listing) (g : list (string * list listing)) :
  group_sizes (group_add r p g) = S (group_sizes g).
Proof.
  unfold group_sizes; induction g as [|[r' ps] g IH]; simpl; [reflexivity|].
  destruct (String.eqb r r'); simpl; [rewrite length_app; simpl; lia | rewrite IH; lia].
Qed.

Lemma filter_none {A} (P : A -> bool) (l : list A) :
  (forall x, In x l -> P x = false) -> filter P l = [].
Proof.
  induction l as [|x xs IH]; simpl; intros H; [reflexivity|].
  rewrite (H x (or_introl eq_refl)); apply IH; intros y Hy; apply H; right; exact Hy.
Qed.

Lemma grouped_step (g : list (string * list listing)) (done : list listing) (p : listing) :
  grouped g done -> grouped (group_add (region p) p g) (done ++ [p]).
Proof.
  intros (Hnd & Hkeys & Hgrp & Hsz).
  assert (Hk' : forall r, In r (map fst (group_add (region p) p g)) <->
                          In r (map fst g) \/ r = region p).
  { intros r; rewrite group_add_keys.
    destruct (existsb (String.eqb (region p)) (map fst g)) eqn:E.
    - apply existsb_exists in E as (x & Hx & Ex); apply String.eqb_eq in Ex; subst x.
      split; [tauto|]. intros [H | ->]; assumption.
    - rewrite in_app_iff; simpl; split.
      + intros [H | [H | []]]; [left; exact H | right; symmetry; exact H].
      + intros [H | H]; [left; exact H | right; left; symmetry; exact H]. }
  split; [|split; [|split]].
  - rewrite group_add_keys.
    destruct (existsb (String.eqb (region p)) (map fst g)) eqn:E; [exact Hnd|].
    apply (Permutation_NoDup (Permutation_cons_append _ _)).
    constructor; [|exact Hnd].
    intros Hin; assert (existsb (String.eqb (region p)) (map fst g) = true); [|congruence].
    apply existsb_exists; exists (region p); split; [exact Hin | apply String.eqb_refl].
  - intros r; rewrite Hk', Hkeys, map_app, in_app_iff; simpl.
    split; intros [H | H]; try tauto.
    + right; left; symmetry; exact H.
    + destruct H as [H | []]; right; symmetry; exact H.
  - intros r h Hin.
    rewrite filter_app; simpl.
    destruct (group_add_in _ _ _ _ _ Hnd Hin) as [[Hne Hg] | [-> [[Hnew ->] | (h0 & Hg & ->)]]].
    + rewrite (Hgrp _ _ Hg).
      destruct (String.eqb_spec (region p) r) as [E | _]; [congruence | symmetry; apply app_nil_r].
    + rewrite String.eqb_refl, filter_none; [reflexivity|].
      intros x Hx; apply String.eqb_neq; intros E; apply Hnew, Hkeys.
      rewrite <- E; apply in_map, Hx.
    + rewrite (Hgrp _ _ Hg), String.eqb_refl; reflexivity.
  - rewrite group_add_sizes, length_app, Hsz; simpl; lia.
Qed.

Lemma grouped_fold (ps : list listing) (g : list (string * list listing)) (done : list listing) :
  grouped g done ->
  grouped (fold_left (fun g p => group_add (region p) p g) ps g) (done ++ ps).
Proof.
  revert g done; induction ps as [|p ps IH]; simpl; intros g done H.
  - rewrite app_nil_r; exact H.
  - replace (done ++ p :: ps) with ((done ++ [p]) ++ ps) by (rewrite <- app_assoc; reflexivity).
    apply IH, grouped_step, H.
Qed.

Lemma region_data_grouped (ps : list listing) : grouped (region_data ps) ps.
Proof.
  apply (grouped_fold ps [] []).
  split; [constructor|]; split; [simpl; tauto|]; split; [intros r h []|reflexivity].
Qed.

Lemma build_region_info_keys (ps : list listing) :
  map fst (build_region_info ps) = map fst (region_data ps).
Proof.
  unfold build_region_info; rewrite map_map; apply map_ext; intros [r h]; reflexivity.
Qed.

Lemma build_region_info_in (ps : list listing) (r : string) (s : region_summary) :
  In (r, s) (build_region_info ps) ->
  exists h, In (r, h) (region_data ps) /\ s = summarize r h.
Proof.
  unfold build_region_info; intros Hin; apply in_map_iff in Hin as ([r' h] & E & Hin).
  injection E as E1 E2; subst; exists h; split; [exact Hin | reflexivity].
Qed.

Lemma build_region_info_member (ps : list listing) (r : string) (s : region_summary) :
  In (r, s) (build_region_info ps) ->
  s = summarize r (filter (fun p => String.eqb (region p) r) ps) /\ (0 < n_properties s)%nat.
Proof.
  destruct (region_data_grouped ps) as (_ & Hkeys & Hgrp & _).
  intros Hin; apply build_region_info_in in Hin as (h & Hin & ->).
  rewrite <- (Hgrp _ _ Hin); split; [reflexivity|].
  simpl; rewrite (Hgrp _ _ Hin).
  assert (Hr : In r (map region ps)) by (apply Hkeys, (in_map fst _ _ Hin)).
  apply in_map_iff in Hr as (p & Hp & Hin').
  destruct (filter (fun p => String.eqb (region p) r) ps) eqn:E; simpl; [|lia].
  assert (In p (filter (fun p => String.eqb (region p) r) ps)) as Hf
    by (apply filter_In; split; [exact Hin' | apply String.eqb_eq, Hp]).
  rewrite E in Hf; contradiction.
Qed.

(** [build_region_info]: one entry per region present among the listings,
    each region once; the entry
    of a region summarises exactly the listings of that region, at least
    one; the counts add up to the number of listings. *)
Theorem build_region_info_groups (ps : list listing) :
  let R := build_region_info ps in
  NoDup (map fst R) /\
  (forall r, In r (map fst R) <-> In r (map region ps)) /\
  (forall r s, In (r, s) R ->
     s = summarize r (filter (fun p => String.eqb (region p) r) ps) /\ (0 < n_properties s)%nat) /\
  fold_right Nat.add 0%nat (map (fun rs => n_properties (snd rs)) R) = List.length ps.
Proof.
  intros R; unfold R.
  destruct (region_data_grouped ps) as (Hnd & Hkeys & Hgrp & Hsz).
  rewrite build_region_info_keys.
  split; [exact Hnd|]; split; [exact Hkeys|]; split.
  - apply build_region_info_member.
  - rewrite <- Hsz; unfold group_sizes, build_region_info; rewrite map_map.
    f_equal; apply map_ext; intros [r h]; reflexivity.
Qed.

Lemma sum_bounds (xs : list Z) (lo hi acc : Z) :
  (forall x, In x xs -> (lo <= x <= hi)%Z) ->
  (acc + Z.of_nat (List.length xs) * lo <= fold_left Z.add xs acc <=
   acc + Z.of_nat (List.length xs) * hi)%Z.
Proof.
  revert acc; induction xs as [|x xs IH]; intros acc H; [simpl; lia|].
  cbn [fold_left List.length].
  pose proof (H x (or_introl eq_refl)) as Hx.
  pose proof (IH (acc + x)%Z (fun y Hy => H y (or_intror Hy))) as Hs.
  rewrite Nat2Z.inj_succ, !Z.mul_succ_l; lia.
Qed.

Lemma py_int_between (lo hi : Z) (x : Q) :
  inject_Z lo <= x -> x <= inject_Z hi -> (lo <= py_int x <= hi)%Z.
Proof.
  intros Hlo Hhi; unfold py_int.
  destruct (Qle_bool 0 x).
  - split; [apply Qfloor_ge_inject, Hlo|].
    rewrite Zle_Qle; eapply Qle_trans; [apply Qfloor_le | exact Hhi].
  - assert (H1 : (- hi <= Qfloor (- x))%Z)
      by (apply Qfloor_ge_inject; rewrite inject_Z_opp; apply Qopp_le_compat, Hhi).
    assert (H2 : (Qfloor (- x) <= - lo)%Z).
    { rewrite Zle_Qle, inject_Z_opp; eapply Qle_trans; [apply Qfloor_le|].
      apply Qopp_le_compat, Hlo. }
    lia.
Qed.

Lemma py_int_mean_between (xs : list Z) (lo hi : Z) :
  xs <> [] -> (forall x, In x xs -> (lo <= x <= hi)%Z) -> (lo <= py_int (mean xs) <= hi)%Z.
Proof.
  intros Hne H.
  pose proof (sum_bounds xs lo hi 0 H) as [Hs1 Hs2].
  assert (Hn : (0 < Z.of_nat (List.length xs))%Z)
    by (destruct xs; [congruence | simpl; lia]).
  assert (Hn' : 0 < inject_Z (Z.of_nat (List.length xs)))
    by (change 0 with (inject_Z 0); rewrite <- Zlt_Qlt; exact Hn).
  unfold mean; apply py_int_between.
  - apply Qle_shift_div_l; [exact Hn'|].
    rewrite <- inject_Z_mult, <- Zle_Qle; lia.
  - apply Qle_shift_div_r; [exact Hn'|].
    rewrite <- inject_Z_mult, <- Zle_Qle; lia.
Qed.

(** [build_region_info]: the average price, airport drive time and beach
    drive time of a region lie within any bounds that hold for all of the
    region's listings (so between their minimum and maximum). *)
Theorem region_averages_within (ps : list listing) (r : string) (s : region_summary) :
  In (r, s) (build_region_info ps) ->
  (forall lo hi, (forall p, In p ps -> region p = r -> (lo <= price p <= hi)%Z) ->
     (lo <= avg_price s <= hi)%Z) /\
  (forall lo hi, (forall p, In p ps -> region p = r -> (lo <= airport_drive_min p <= hi)%Z) ->
     (lo <= avg_airport s <= hi)%Z) /\
  (forall lo hi, (forall p, In p ps -> region p = r -> (lo <= beach_min p <= hi)%Z) ->
     (lo <= avg_beach s <= hi)%Z).
Proof.
  intros Hin.
  assert (Hgrp : forall r s, In (r, s) (build_region_info ps) ->
            s = summarize r (filter (fun p => String.eqb (region p) r) ps) /\
            (0 < n_properties s)%nat) by (apply build_region_info_member).
  destruct (Hgrp r s Hin) as [-> Hpos].
  set (G := filter (fun p => String.eqb (region p) r) ps) in *.
  assert (HG : G <> []) by (intros E; simpl in Hpos; rewrite E in Hpos; simpl in Hpos; lia).
  assert (Hmem : forall p, In p G -> In p ps /\ region p = r)
    by (intros p Hp; apply filter_In in Hp as [Hp E]; split; [exact Hp | apply String.eqb_eq, E]).
  assert (Hgen : forall (f : listing -> Z) lo hi,
            (forall p, In p ps -> region p = r -> (lo <= f p <= hi)%Z) ->
            (lo <= py_int (mean (map f G)) <= hi)%Z).
  { intros f lo hi Hb; apply py_int_mean_between.
    - destruct G; [congruence | discriminate].
    - intros x Hx; apply in_map_iff in Hx as (p & <- & Hp).
      destruct (Hmem p Hp); apply Hb; assumption. }
  split; [|split].
  - intros lo hi Hb; simpl.
    destruct G eqn:EG; [congruence|]; apply (Hgen price), Hb.
  - intros lo hi Hb; apply (Hgen airport_drive_min), Hb.
  - intros lo hi Hb; apply (Hgen beach_min), Hb.
Qed.

Lemma region_averages_within_witness :
  In ("crete"%string,
      summarize "crete" (filter (fun p => String.eqb (region p) "crete") sample_listings))
     (build_region_info sample_listings) /\
  let s := summarize "crete" (filter (fun p => String.eqb (region p) "crete") sample_listings) in
  (forall lo hi, (forall p, In p sample_listings -> region p = "crete"%string ->
                   (lo <= price p <= hi)%Z) -> (lo <= avg_price s <= hi)%Z) /\
  (forall lo hi, (forall p, In p sample_listings -> region p = "crete"%string ->
                   (lo <= airport_drive_min p <= hi)%Z) -> (lo <= avg_airport s <= hi)%Z) /\
  (forall lo hi, (forall p, In p sample_listings -> region p = "crete"%string ->
                   (lo <= beach_min p <= hi)%Z) -> (lo <= avg_beach s <= hi)%Z).
Proof.
  assert (Hin : In ("crete"%string,
      summarize "crete" (filter (fun p => String.eqb (region p) "crete") sample_listings))
     (build_region_info sample_listings)) by (left; reflexivity).
  split; [exact Hin | exact (region_averages_within _ _ _ Hin)].
Defined.

End RegionProofs.

(** ** [fetch_area_photos] *)
Module PhotoProofs.
Import Py Pipeline Photos PipelineFixtures PipelineProofs.

Lemma add_urls_in (res urls : list string) (u : string) :
  In u (add_urls res urls) <-> In u res \/ In u urls.
Proof.
  unfold add_urls; revert res; induction urls as [|x xs IH]; simpl; intros res; [tauto|].
  rewrite IH; destruct (existsb (String.eqb x) res) eqn:E.
  - apply existsb_eqb_iff in E; split; [tauto|].
    intros [H | [-> | H]]; tauto.
  - rewrite in_app_iff; simpl; split; intros H; tauto.
Qed.

Lemma add_urls_nodup (res urls : list string) : NoDup res -> NoDup (add_urls res urls).
Proof.
  unfold add_urls; revert res; induction urls as [|x xs IH]; simpl; intros res H; [exact H|].
  apply IH; destruct (existsb (String.eqb x) res) eqn:E; [exact H|].
  apply (Permutation_NoDup (Permutation_cons_append res x)); constructor; [|exact H].
  intros Hin; apply existsb_eqb_iff in Hin; congruence.
Qed.

Lemma geo_steps_in (search : Z -> list string) (n : nat) (radii : list Z) (res : list string)
  (u : string) :
  In u (geo_steps search n radii res) -> In u res \/ exists r, In r radii /\ In u (search r).
Proof.
  revert res; induction radii as [|r rs IH]; simpl; intros res Hin; [left; exact Hin|].
  assert (Hstep : In u (add_urls res (search r)) ->
                  In u res \/ exists r', (r = r' \/ In r' rs) /\ In u (search r')).
  { intros H; apply add_urls_in in H as [H | H]; [left; exact H|].
    right; exists r; split; [left; reflexivity | exact H]. }
  destruct (Nat.leb n (List.length (add_urls res (search r)))); [apply Hstep, Hin|].
  destruct (IH _ Hin) as [H | (r' & Hr' & H)]; [apply Hstep, H|].
  right; exists r'; split; [right; exact Hr' | exact H].
Qed.

Lemma geo_steps_nodup (search : Z -> list string) (n : nat) (radii : list Z) (res : list string) :
  NoDup res -> NoDup (geo_steps search n radii res).
Proof.
  revert res; induction radii as [|r rs IH]; simpl; intros res H; [exact H|].
  destruct (Nat.leb _ _); [|apply IH]; apply add_urls_nodup, H.
Qed.

Lemma in_firstn {A} (n : nat) (l : list A) (x : A) : In x (firstn n l) -> In x l.
Proof.
  intros H; rewrite <- (firstn_skipn n l); apply in_or_app; left; exact H.
Qed.

Lemma NoDup_firstn {A} (n : nat) (l : list A) : NoDup l -> NoDup (firstn n l).
Proof.
  revert n; induction l as [|x xs IH]; intros [|n] H; simpl; [constructor | constructor | constructor |].
  apply NoDup_cons_iff in H as [Hx Hxs].
  constructor; [intros Hin; apply Hx, (in_firstn n), Hin | apply IH, Hxs].
Qed.

Lemma stages_nodup (geosearch : Q -> Q -> Z -> list string) (text_search : string -> list string)
  (satellite_url : Q -> Q -> string) (lat lng : option Q) (specific : option string) (n : nat) :
  NoDup (satellite_stage satellite_url lat lng n
           (text_stage text_search specific n (geo_stage geosearch lat lng n))).
Proof.
  assert (H1 : NoDup (geo_stage geosearch lat lng n)).
  { unfold geo_stage; destruct (coords lat lng) as [[a b]|];
      [apply geo_steps_nodup; constructor | constructor]. }
  assert (H2 : NoDup (text_stage text_search specific n (geo_stage geosearch lat lng n))).
  { unfold text_stage; destruct (Nat.ltb _ n); [|exact H1].
    destruct specific as [s|]; [|exact H1]; cbv zeta.
    destruct (Nat.ltb _ n); repeat apply add_urls_nodup; exact H1. }
  unfold satellite_stage; destruct (coords lat lng) as [[a b]|]; [|exact H2].
  destruct (Nat.ltb _ n); [apply add_urls_nodup|]; exact H2.
Qed.

(** [fetch_area_photos] never returns the same URL twice and returns at
    most [n] URLs, whatever the searches return. *)
Theorem fetch_area_photos_nodup (geosearch : Q -> Q -> Z -> list string)
  (text_search : string -> list string) (satellite_url : Q -> Q -> string)
  (lat lng : option Q) (specific : option string) (n : nat) :
  let photos := fetch_area_photos geosearch text_search satellite_url lat lng specific n in
  NoDup photos /\ (List.length photos <= n)%nat.
Proof.
  split; [apply NoDup_firstn, stages_nodup | apply firstn_le_length].
Qed.

(** Every URL [fetch_area_photos] returns comes from a search it made:
    a geotagged search at one of the three radii or the satellite image,
    both only when [lat] and [lng] are truthy, or one of the two text
    searches for the place name. *)
Theorem fetch_area_photos_sources (geosearch : Q -> Q -> Z -> list string)
  (text_search : string -> list string) (satellite_url : Q -> Q -> string)
  (lat lng : option Q) (specific : option string) (n : nat) (u : string) :
  In u (fetch_area_photos geosearch text_search satellite_url lat lng specific n) ->
  (exists a b r, coords lat lng = Some (a, b) /\ In r [5000; 10000; 20000]%Z /\
                 In u (geosearch a b r)) \/
  (exists s, specific = Some s /\
             (In u (text_search (landscape_query s)) \/ In u (text_search (village_query s)))) \/
  (exists a b, coords lat lng = Some (a, b) /\ u = satellite_url a b).
Proof.
  unfold fetch_area_photos; intros Hin; apply in_firstn in Hin.
  assert (H1 : In u (geo_stage geosearch lat lng n) ->
               exists a b r, coords lat lng = Some (a, b) /\ In r [5000; 10000; 20000]%Z /\
                             In u (geosearch a b r)).
  { unfold geo_stage; destruct (coords lat lng) as [[a b]|]; [|intros []].
    intros H; apply geo_steps_in in H as [[] | (r & Hr & H)].
    exists a, b, r; repeat split; assumption. }
  assert (H2 : In u (text_stage text_search specific n (geo_stage geosearch lat lng n)) ->
               In u (geo_stage geosearch lat lng n) \/
               exists s, specific = Some s /\ (In u (text_search (landscape_query s)) \/
                                               In u (text_search (village_query s)))).
  { unfold text_stage; destruct (Nat.ltb _ n); [|tauto].
    destruct specific as [s|]; [|tauto]; cbv zeta.
    intros H; destruct (Nat.ltb _ n);
      repeat (apply add_urls_in in H as [H | H]); try (left; exact H);
      right; exists s; split; auto. }
  unfold satellite_stage in Hin; destruct (coords lat lng) as [[a b]|] eqn:Ec.
  - destruct (Nat.ltb _ n).
    + apply add_urls_in in Hin as [Hin | [<- | []]].
      * destruct (H2 Hin) as [H | H]; [left; apply H1, H | right; left; exact H].
      * right; right; exists a, b; split; reflexivity.
    + destruct (H2 Hin) as [H | H]; [left; apply H1, H | right; left; exact H].
  - destruct (H2 Hin) as [H | H]; [left; apply H1, H | right; left; exact H].
Qed.

Lemma fetch_area_photos_sources_witness :
  In "sat"%string (fetch_area_photos (fun _ _ _ => []) (fun _ => []) (fun _ _ => "sat"%string)
                     (Some 38) (Some 24) None 3) /\
  ((exists a b r, coords (Some 38) (Some 24) = Some (a, b) /\ In r [5000; 10000; 20000]%Z /\
                  In "sat"%string ((fun _ _ _ => []) a b r)) \/
   (exists s, (None : option string) = Some s /\
              (In "sat"%string ((fun _ => []) (landscape_query s)) \/
               In "sat"%string ((fun _ => []) (village_query s)))) \/
   (exists a b, coords (Some 38) (Some 24) = Some (a, b) /\
                "sat"%string = (fun _ _ => "sat"%string) a b)).
Proof.
  assert (H : In "sat"%string (fetch_area_photos (fun _ _ _ => []) (fun _ => [])
                                 (fun _ _ => "sat"%string) (Some 38) (Some 24) None 3))
    by (vm_compute; left; reflexivity).
  split; [exact H | exact (fetch_area_photos_sources _ _ _ _ _ _ _ _ H)].
Defined.

Lemma stages_nonempty (geosearch : Q -> Q -> Z -> list string) (text_search : string -> list string)
  (satellite_url : Q -> Q -> string) (lat lng : option Q) (specific : option string) (n : nat)
  (a b : Q) :
  coords lat lng = Some (a, b) -> (0 < n)%nat ->
  (n <= List.length (text_stage text_search specific n (geo_stage geosearch lat lng n)))%nat \/
  In (satellite_url a b)
     (satellite_stage satellite_url lat lng n
        (text_stage text_search specific n (geo_stage geosearch lat lng n))).
Proof.
  intros Ec Hn; unfold satellite_stage; rewrite Ec.
  destruct (Nat.ltb _ n) eqn:E.
  - right; apply add_urls_in; right; left; reflexivity.
  - left; apply Nat.ltb_ge, E.
Qed.

Lemma photos_nonempty (geosearch : Q -> Q -> Z -> list string)
  (text_search : string -> list string) (satellite_url : Q -> Q -> string)
  (lat lng : option Q) (specific : option string) (n : nat) (a b : Q) :
  coords lat lng = Some (a, b) -> (0 < n)%nat ->
  fetch_area_photos geosearch text_search satellite_url lat lng specific n <> [].
Proof.
  intros Ec Hn; unfold fetch_area_photos.
  set (R := satellite_stage satellite_url lat lng n
              (text_stage text_search specific n (geo_stage geosearch lat lng n))).
  assert (HR : R <> []).
  { destruct (stages_nonempty geosearch text_search satellite_url lat lng specific n a b Ec Hn)
      as [H | H].
    - unfold R, satellite_stage; rewrite Ec.
      destruct (Nat.ltb _ n) eqn:E; [apply Nat.ltb_lt in E; lia|].
      intros E'; rewrite E' in H; simpl in H; lia.
    - intros E; fold R in H; rewrite E in H; contradiction. }
  destruct n as [|n]; [lia|]; destruct R as [|x R']; [congruence | discriminate].
Qed.

(** With truthy coordinates and [n >= 1], [fetch_area_photos] returns at
    least one URL, whatever the searches return: the satellite image fills
    in when the searches come up short. *)
Theorem fetch_area_photos_nonempty (geosearch : Q -> Q -> Z -> list string)
  (text_search : string -> list string) (satellite_url : Q -> Q -> string)
  (lat lng : option Q) (specific : option string) (n : nat) (a b : Q) :
  coords lat lng = Some (a, b) -> (0 < n)%nat ->
  fetch_area_photos geosearch text_search satellite_url lat lng specific n <> [].
Proof. apply photos_nonempty. Qed.

Lemma fetch_area_photos_nonempty_witness :
  (coords (Some 38) (Some 24) = Some (38, 24) /\ (0 < 3)%nat) /\
  fetch_area_photos (fun _ _ _ => []) (fun _ => []) (fun _ _ => "sat"%string)
    (Some 38) (Some 24) None 3 <> [].
Proof.
  assert (Ec : coords (Some 38) (Some 24) = Some (38, 24)) by reflexivity.
  assert (Hn : (0 < 3)%nat) by lia.
  split; [split; assumption|].
  exact (fetch_area_photos_nonempty _ _ _ _ _ None 3 38 24 Ec Hn).
Defined.

(** [run_scraper] calls [fetch_area_photos(lat, lng, title)] with [n = 3]
    for every saved listing, and every saved listing has truthy
    coordinates: so every saved listing gets at least one area photo,
    whatever the searches return. *)
Theorem saved_listings_get_photos (all_properties : list listing)
  (geosearch : Q -> Q -> Z -> list string) (text_search : string -> list string)
  (satellite_url : Q -> Q -> string) (specific : option string) (p : listing) :
  In p (investment_properties all_properties) ->
  fetch_area_photos geosearch text_search satellite_url (lat p) (lng p) specific 3 <> [].
Proof.
  intros Hp.
  pose proof (investment_properties_investable all_properties p Hp) as Hinv.
  unfold investable in Hinv; apply andb_true_iff in Hinv as [Hinv Hlng];
    apply andb_true_iff in Hinv as [_ Hlat].
  destruct (lat p) as [a|] eqn:Ea; [|discriminate].
  destruct (lng p) as [b|] eqn:Eb; [|discriminate].
  apply (photos_nonempty _ _ _ _ _ _ _ a b); [|lia].
  unfold coords; rewrite Hlat, Hlng; reflexivity.
Qed.

Lemma saved_listings_get_photos_witness :
  In (PipelineFixtures.sample_listing "C" 60000 "attica" 30 15)
     (investment_properties sample_listings) /\
  fetch_area_photos (fun _ _ _ => []) (fun _ => []) (fun _ _ => "sat"%string)
    (lat (PipelineFixtures.sample_listing "C" 60000 "attica" 30 15))
    (lng (PipelineFixtures.sample_listing "C" 60000 "attica" 30 15)) None 3 <> [].
Proof.
  assert (H : In (PipelineFixtures.sample_listing "C" 60000 "attica" 30 15)
                 (investment_properties sample_listings)) by (vm_compute; left; reflexivity).
  split; [exact H | exact (saved_listings_get_photos _ _ _ _ None _ H)].
Defined.

End PhotoProofs.

(** ** From the scraper's Airbnb estimate to the yield the page shows *)
Module YieldProofs.
Import Py Scraper SiteYield LookupProofs ScraperProofs.

Lemma estimate_airbnb_floor (price_eur : Z) (region : string) (bedrooms : option Z)
  (beach_min city_min : Z) :
  (forall b, bedrooms = Some b -> (0 <= b)%Z) ->
  (42 <= fst (estimate_airbnb price_eur region bedrooms beach_min city_min))%Z /\
  (35 <= snd (estimate_airbnb price_eur region bedrooms beach_min city_min))%Z.
Proof.
  intros Hb; destruct bedrooms as [b|]; [specialize (Hb b eq_refl)|]; split_estimate; lia.
Qed.

(** A listing the scraper keeps has a price in (0, [MAX_EUR]]; with the
    nightly rate and occupancy [_estimate_airbnb] gives it (for a
    non-negative bedroom count), the gross yield the page computes is at
    least 5.2%. *)
Theorem listing_gross_yield_floor (price_eur : Z) (region : string) (bedrooms : option Z)
  (beach_min city_min : Z) :
  (0 < price_eur <= Pipeline.MAX_EUR)%Z -> (forall b, bedrooms = Some b -> (0 <= b)%Z) ->
  let est := estimate_airbnb price_eur region bedrooms beach_min city_min in
  26 # 5 <= snd (site_yield (Some (inject_Z price_eur)) (fst est) (snd est)).
Proof.
  intros Hp Hb est.
  destruct (estimate_airbnb_floor price_eur region bedrooms beach_min city_min Hb) as [Hr Ho].
  fold est in Hr, Ho.
  set (rate := fst est) in *; set (occ := snd est) in *.
  set (P := inject_Z price_eur).
  assert (HP : 0 < P) by (unfold P; change 0 with (inject_Z 0); rewrite <- Zlt_Qlt; lia).
  assert (HPle : P <= 102000)
    by (unfold P; change 102000 with (inject_Z 102000); rewrite <- Zle_Qle; unfold Pipeline.MAX_EUR in Hp; lia).
  unfold site_yield; cbn zeta; simpl snd.
  replace (Qeq_bool P 0) with false
    by (symmetry; apply not_true_iff_false; intros E; apply Qeq_bool_iff in E; rewrite E in HP;
        discriminate).
  simpl negb; cbv iota.
  set (n := inject_Z (rate * 365 * occ) / 100).
  assert (Hn : 5365 <= n).
  { assert (inject_Z 536500 <= inject_Z (rate * 365 * occ)) by (rewrite <- Zle_Qle; nia).
    change (inject_Z 536500) with 536500 in H; unfold n; qlra. }
  assert (Hfn : 5365 <= fl n).
  { rewrite fl_pos_eq by lra.
    change 5365 with (inject_Z 5365); apply fl_pos_ge_int; [lra | lia | exact Hn]. }
  set (inc := py_int (fl n)).
  assert (Hinc : 5365 <= inject_Z inc).
  { unfold inc; rewrite (py_int_nonneg (fl n)) by lra.
    change 5365 with (inject_Z 5365); rewrite <- Zle_Qle.
    apply Qfloor_ge_inject, Hfn. }
  set (x := inject_Z inc / P).
  assert (HX : 5259 # 100000 <= x).
  { unfold x; apply Qle_shift_div_l; [exact HP | lra]. }
  assert (HT : 2 ^ (-1022) <= 1 # 100) by (vm_compute; discriminate).
  pose proof (fl_rel x) as E1.
  rewrite (Qabs_pos x) in E1 by lra.
  setoid_replace (2 ^ (-53)) with (1 # 9007199254740992) in E1 by (vm_compute; reflexivity).
  specialize (E1 ltac:(lra)).
  apply Qabs_Qle_condition in E1 as [E1 _].
  set (q := fl x) in *.
  pose proof (fl_rel (q * 100)) as E2.
  rewrite (Qabs_pos (q * 100)) in E2 by lra.
  setoid_replace (2 ^ (-53)) with (1 # 9007199254740992) in E2 by (vm_compute; reflexivity).
  specialize (E2 ltac:(lra)).
  apply Qabs_Qle_condition in E2 as [E2 _].
  pose proof (round1_close (fl (q * 100))) as [H1 _].
  lra.
Qed.

Lemma listing_gross_yield_floor_witness :
  ((0 < 100000 <= Pipeline.MAX_EUR)%Z /\
   (forall b, (None : option Z) = Some b -> (0 <= b)%Z)) /\
  let est := estimate_airbnb 100000 "other" None 60 60 in
  26 # 5 <= snd (site_yield (Some (inject_Z 100000)) (fst est) (snd est)).
Proof.
  assert (Hp : (0 < 100000 <= Pipeline.MAX_EUR)%Z) by (unfold Pipeline.MAX_EUR; lia).
  assert (Hb : forall b, (None : option Z) = Some b -> (0 <= b)%Z) by discriminate.
  split; [split; assumption|].
  exact (listing_gross_yield_floor 100000 "other" None 60 60 Hp Hb).
Defined.

End YieldProofs.
